(** * Object-storage cache client (src/internal/objectstorageClient.ts)

    A shallow embedding of the cache client that talks to an object store
    through the TOS SDK.  The file under study holds two generations of the
    same module: lines 1-160 are the current functions ([getCacheVersion],
    [getCacheEntry], [downloadCache], [handleError], [uploadFile],
    [saveCache]); the remainder keeps the earlier generation, from which
    [reserveCacheVolc] and [getContentRange] are taken.

    Conventions of the embedding:
    - a JavaScript string is a [string] holding its UTF-8 bytes, which is
      the byte sequence [crypto]'s [update] hashes;
    - a JavaScript array is an object in a heap of arrays and is passed
      around by reference, so that aliasing and in-place [push] are
      visible;
    - an [async] function is run sequentially: every [await] is a bind of a
      state-and-exception monad over the observable world (heap, console,
      local files, requests sent to the store);
    - a rejected promise or a thrown value is the [Throw] result. *)

From Stdlib Require Import ZArith List String Ascii Lia.
From Stdlib Require Import DecimalString DecimalFacts DecimalPos.
From stdpp Require Import base option list strings gmap.
Import ListNotations.

Local Open Scope string_scope.
Local Open Scope list_scope.
Local Open Scope Z_scope.

(** ** SHA-256 (FIPS 180-4), the digest behind [crypto.createHash("sha256")] *)

Module SHA256.

(** 32-bit words are integers in [0, 2^32), wrap-around written out. *)
Definition wrap32 (x : Z) : Z := x mod 4294967296.
Definition add32 (x y : Z) : Z := wrap32 (x + y).
Definition not32 (x : Z) : Z := Z.lxor x 4294967295.
Definition rotr (n x : Z) : Z :=
  Z.lor (Z.shiftr x n) (wrap32 (Z.shiftl x (32 - n))).
Definition shr (n x : Z) : Z := Z.shiftr x n.

Definition Ch (x y z : Z) : Z := Z.lxor (Z.land x y) (Z.land (not32 x) z).
Definition Maj (x y z : Z) : Z :=
  Z.lxor (Z.lxor (Z.land x y) (Z.land x z)) (Z.land y z).
Definition bigsigma0 (x : Z) : Z :=
  Z.lxor (Z.lxor (rotr 2 x) (rotr 13 x)) (rotr 22 x).
Definition bigsigma1 (x : Z) : Z :=
  Z.lxor (Z.lxor (rotr 6 x) (rotr 11 x)) (rotr 25 x).
Definition smallsigma0 (x : Z) : Z :=
  Z.lxor (Z.lxor (rotr 7 x) (rotr 18 x)) (shr 3 x).
Definition smallsigma1 (x : Z) : Z :=
  Z.lxor (Z.lxor (rotr 17 x) (rotr 19 x)) (shr 10 x).

(** The round constants: the first 32 bits of the fractional parts of the
    cube roots of the first sixty-four primes, in decimal. *)
Definition K : list Z :=
  [ 1116352408 ; 1899447441 ; 3049323471 ; 3921009573 ; 961987163 ; 1508970993
  ; 2453635748 ; 2870763221 ; 3624381080 ; 310598401 ; 607225278 ; 1426881987
  ; 1925078388 ; 2162078206 ; 2614888103 ; 3248222580 ; 3835390401 ; 4022224774
  ; 264347078 ; 604807628 ; 770255983 ; 1249150122 ; 1555081692 ; 1996064986
  ; 2554220882 ; 2821834349 ; 2952996808 ; 3210313671 ; 3336571891 ; 3584528711
  ; 113926993 ; 338241895 ; 666307205 ; 773529912 ; 1294757372 ; 1396182291
  ; 1695183700 ; 1986661051 ; 2177026350 ; 2456956037 ; 2730485921 ; 2820302411
  ; 3259730800 ; 3345764771 ; 3516065817 ; 3600352804 ; 4094571909 ; 275423344
  ; 430227734 ; 506948616 ; 659060556 ; 883997877 ; 958139571 ; 1322822218
  ; 1537002063 ; 1747873779 ; 1955562222 ; 2024104815 ; 2227730452 ; 2361852424
  ; 2428436474 ; 2756734187 ; 3204031479 ; 3329325298 ].

(** The eight chaining words, and the eight working variables. *)
Record words8 : Type := W8 {
  wa : Z; wb : Z; wc : Z; wd : Z; we : Z; wf : Z; wg : Z; wh : Z
}.

Definition H_init : words8 :=
  W8 0x6a09e667 0xbb67ae85 0x3c6ef372 0xa54ff53a
     0x510e527f 0x9b05688c 0x1f83d9ab 0x5be0cd19.

(** Padding: the byte 0x80, zero bytes up to 56 modulo 64, then the bit
    length as a 64-bit big-endian integer. *)
Definition be_bytes (count : nat) (x : Z) : list Z :=
  map (fun i => Z.land (Z.shiftr x (8 * Z.of_nat i)) 255) (rev (seq 0 count)).

Definition pad (msg : list Z) : list Z :=
  let len := Z.of_nat (length msg) in
  let zeros := Z.to_nat ((55 - len) mod 64) in
  msg ++ 128 :: repeat 0 zeros ++ be_bytes 8 (8 * len).

(** Big-endian grouping of bytes into 32-bit words. *)
Fixpoint words_of_bytes (bs : list Z) : list Z :=
  match bs with
  | b0 :: b1 :: b2 :: b3 :: rest =>
      (Z.lor (Z.shiftl b0 24)
         (Z.lor (Z.shiftl b1 16) (Z.lor (Z.shiftl b2 8) b3)))
      :: words_of_bytes rest
  | _ => []
  end.

(** Message schedule.  [recent] holds the words computed so far, newest
    first, so W(t-2), W(t-7), W(t-15) and W(t-16) sit at fixed places. *)
Fixpoint extend (n : nat) (recent : list Z) : list Z :=
  match n with
  | O => recent
  | S n' =>
      let wt :=
        add32 (add32 (smallsigma1 (nth 1 recent 0)) (nth 6 recent 0))
              (add32 (smallsigma0 (nth 14 recent 0)) (nth 15 recent 0)) in
      extend n' (wt :: recent)
  end.

Definition schedule (block : list Z) : list Z :=
  rev (extend 48 (rev block)).

Definition round (s : words8) (kw : Z * Z) : words8 :=
  let t1 :=
    add32 (add32 (add32 (wh s) (bigsigma1 (we s)))
                 (add32 (Ch (we s) (wf s) (wg s)) (fst kw))) (snd kw) in
  let t2 := add32 (bigsigma0 (wa s)) (Maj (wa s) (wb s) (wc s)) in
  W8 (add32 t1 t2) (wa s) (wb s) (wc s) (add32 (wd s) t1) (we s) (wf s) (wg s).

Definition compress (hv : words8) (block : list Z) : words8 :=
  let s := fold_left round (combine K (schedule block)) hv in
  W8 (add32 (wa hv) (wa s)) (add32 (wb hv) (wb s))
     (add32 (wc hv) (wc s)) (add32 (wd hv) (wd s))
     (add32 (we hv) (we s)) (add32 (wf hv) (wf s))
     (add32 (wg hv) (wg s)) (add32 (wh hv) (wh s)).

(** One block of sixteen words at a time; [nblocks] is the block count. *)
Fixpoint absorb (nblocks : nat) (ws : list Z) (hv : words8) : words8 :=
  match nblocks with
  | O => hv
  | S n' => absorb n' (skipn 16 ws) (compress hv (firstn 16 ws))
  end.

Definition digest (msg : list Z) : words8 :=
  let ws := words_of_bytes (pad msg) in
  absorb (Nat.div (length ws) 16) ws H_init.

(** Lower-case hexadecimal output, as [digest("hex")] prints it. *)
Definition hex_digit (n : Z) : ascii :=
  if n <? 10 then ascii_of_N (Z.to_N (48 + n))
  else ascii_of_N (Z.to_N (87 + n)).

Definition hex_word (x : Z) (tail : string) : string :=
  String (hex_digit (Z.land (Z.shiftr x 28) 15))
 (String (hex_digit (Z.land (Z.shiftr x 24) 15))
 (String (hex_digit (Z.land (Z.shiftr x 20) 15))
 (String (hex_digit (Z.land (Z.shiftr x 16) 15))
 (String (hex_digit (Z.land (Z.shiftr x 12) 15))
 (String (hex_digit (Z.land (Z.shiftr x 8) 15))
 (String (hex_digit (Z.land (Z.shiftr x 4) 15))
 (String (hex_digit (Z.land x 15)) tail))))))).

Definition hex (hv : words8) : string :=
  hex_word (wa hv) (hex_word (wb hv) (hex_word (wc hv) (hex_word (wd hv)
 (hex_word (we hv) (hex_word (wf hv) (hex_word (wg hv) (hex_word (wh hv)
  EmptyString))))))).

Definition bytes_of_string (s : string) : list Z :=
  map (fun c => Z.of_N (N_of_ascii c)) (list_ascii_of_string s).

(** [crypto.createHash("sha256").update(s).digest("hex")] *)
Definition sha256_hex (s : string) : string := hex (digest (bytes_of_string s)).

End SHA256.

(** ** JavaScript values and the observable world *)

(** What a [catch] clause can receive.  The two SDK error classes carry the
    fields [handleError] prints; any other thrown value is kept as the text
    [console.log] shows for it. *)
Inductive JsError : Type :=
| TosClientError (message stack : string)
| TosServerError (requestId : string) (statusCode : Z)
                 (headers code message : string)
| OtherError (shown : string).

(** Requests sent through the SDK, in the order they were issued. *)
Inductive Request : Type :=
| HeadObject (bucket : option string) (key : string)
| GetObjectToFile (bucket : option string) (key filePath : string)
| PutObjectFromFile (bucket : option string) (key filePath : string).

Inductive Channel : Type := ConsoleWarn | ConsoleLog | CoreDebug | CoreInfo.

(** Arrays live in a heap and are named by their index in it. *)
Definition loc := nat.

Record World : Type := mkWorld {
  heap : list (list string);
  console : list (Channel * string);
  files : gmap string (list Byte.byte);
  requests : list Request
}.

(** What the store answers to a GET: the content length it declares and
    the bytes that really arrive. *)
Record GetReply : Type := mkGetReply {
  contentLength : Z;
  delivered : list Byte.byte
}.

(** The SDK client bound to a store: the three calls the module makes.
    [None] means the returned promise resolves, [Some e] that it rejects
    with [e].  [getObjectToFile] acts on the local files; what it leaves at
    the destination, also when it rejects, is the SDK's business.
    [getObject_reply] is not a call of the module: it names what travels
    over the wire during [getObjectToFile]. *)
Record TosClient : Type := mkTosClient {
  headObject : option string -> string -> option JsError;
  getObject_reply : option string -> string -> GetReply;
  getObjectToFile :
    option string -> string -> string ->
    gmap string (list Byte.byte) -> gmap string (list Byte.byte) * option JsError;
  putObjectFromFile :
    option string -> string -> string ->
    gmap string (list Byte.byte) -> option JsError
}.

(** [process.env] entries read at module load, and [process.platform]. *)
Record Env : Type := mkEnv {
  BUCKET_NAME : option string;
  GITHUB_REPOSITORY : option string;
  GITHUB_WORKFLOW_SHA : option string;
  GITHUB_REF : option string;
  platform : string
}.

(** contracts.d.ts *)
Record ArtifactCacheEntry : Type := mkEntry {
  cacheKey : option string;
  scope : option string;
  cacheVersion : option string;
  creationTime : option string;
  objectKey : option string
}.

(** constants.ts is not among the sources: [CompressionMethod] is a
    string-valued enum and is kept as the string it stands for. *)
Record InternalCacheOptions : Type := mkOptions {
  compressionMethod : option string;
  enableCrossOsArchive : option bool;
  cacheSize : option Z
}.

Record ReserveCacheResponse : Type := mkReserve { cacheId : Z }.

(** ** Sequential execution of the asynchronous code *)

Inductive Result (A : Type) : Type :=
| Ok (a : A)
| Throw (e : JsError).
Arguments Ok {A} a.
Arguments Throw {A} e.

Definition M (A : Type) : Type := World -> Result A * World.

Definition ret {A} (a : A) : M A := fun w => (Ok a, w).
Definition throw {A} (e : JsError) : M A := fun w => (Throw e, w).
Definition bind {A B} (m : M A) (k : A -> M B) : M B :=
  fun w => match m w with
           | (Ok a, w') => k a w'
           | (Throw e, w') => (Throw e, w')
           end.
Definition try_catch {A} (body : M A) (handler : JsError -> M A) : M A :=
  fun w => match body w with
           | (Ok a, w') => (Ok a, w')
           | (Throw e, w') => handler e w'
           end.

Notation "'do' x <- m ;; k" := (bind m (fun x => k))
  (at level 10, x name, m at level 99, k at level 200).
Notation "'exec' m ;; k" := (bind m (fun _ => k))
  (at level 10, m at level 99, k at level 200).

Definition when (b : bool) (m : M unit) : M unit := if b then m else ret tt.

(** *** Console and runner output *)

Definition emit (ch : Channel) (text : string) : M unit :=
  fun w => (Ok tt, mkWorld (heap w) (console w ++ [(ch, text)]) (files w) (requests w)).

Definition console_warn := emit ConsoleWarn.
Definition console_log := emit ConsoleLog.
Definition core_debug := emit CoreDebug.
Definition core_info := emit CoreInfo.

(** *** Arrays *)

Definition TypeError : JsError :=
  OtherError "TypeError: Cannot read properties of undefined".

Definition Array_read (p : loc) : M (list string) :=
  fun w => match heap w !! p with
           | Some xs => (Ok xs, w)
           | None => (Throw TypeError, w)
           end.

(** [xs.slice()]: a fresh array holding the same elements. *)
Definition Array_slice (p : loc) : M loc :=
  do xs <- Array_read p ;;
  fun w => (Ok (length (heap w)),
            mkWorld (heap w ++ [xs]) (console w) (files w) (requests w)).

(** [xs.push(x)]: in place. *)
Definition Array_push (p : loc) (x : string) : M unit :=
  do xs <- Array_read p ;;
  fun w => (Ok tt,
            mkWorld (<[p := xs ++ [x]]> (heap w)) (console w) (files w) (requests w)).

(** [xs.join(sep)] *)
Definition Array_join (p : loc) (sep : string) : M string :=
  do xs <- Array_read p ;;
  ret (String.concat sep xs).

(** *** Numbers and template literals *)

(** A number that holds an integer of the exactly representable range
    prints as its decimal digits. *)
Definition MAX_SAFE_INTEGER : Z := 9007199254740991.

Definition Number_toString (n : Z) : string :=
  DecimalString.NilZero.string_of_int (Z.to_int n).

(** An environment entry inside a template literal. *)
Definition interpolate (v : option string) : string :=
  match v with
  | Some s => s
  | None => "undefined"
  end.

(** [Math.round(n / d)] for a non-negative integer [n] and a power of two
    [d]: the quotient is exact and halves round up. *)
Definition Math_round_div (n d : Z) : Z := (2 * n + d) / (2 * d).

(** Truthiness of an optional string-valued enum member. *)
Definition truthy (v : option string) : bool :=
  match v with
  | Some (String _ _) => true
  | _ => false
  end.

(** ** The module *)

Definition versionSalt : string := "1.0".

Section ObjectStorageClient.

(** The module-level constants [bucket], [repo], [workflowHash] and [ref]
    come from the environment; [createObjectStorageClient()] yields the
    SDK client. *)
Variable env : Env.
Variable client : TosClient.

(** ../options is not among the sources; the option bags are passed
    along and never inspected. *)
Variables DownloadOptions UploadOptions : Type.

Definition bucket : option string := BUCKET_NAME env.
Definition repo : option string := GITHUB_REPOSITORY env.
Definition workflowHash : option string := GITHUB_WORKFLOW_SHA env.
Definition ref : option string := GITHUB_REF env.

(** The awaited SDK calls: the request is noted, then the promise
    settles. *)
Definition client_headObject (b : option string) (key : string) : M unit :=
  fun w =>
    let w' := mkWorld (heap w) (console w) (files w)
                      (requests w ++ [HeadObject b key]) in
    match headObject client b key with
    | None => (Ok tt, w')
    | Some e => (Throw e, w')
    end.

Definition client_getObjectToFile (b : option string) (key filePath : string)
  : M unit :=
  fun w =>
    let '(fs, settled) := getObjectToFile client b key filePath (files w) in
    let w' := mkWorld (heap w) (console w) fs
                      (requests w ++ [GetObjectToFile b key filePath]) in
    match settled with
    | None => (Ok tt, w')
    | Some e => (Throw e, w')
    end.

Definition client_putObjectFromFile (b : option string) (key filePath : string)
  : M unit :=
  fun w =>
    let w' := mkWorld (heap w) (console w) (files w)
                      (requests w ++ [PutObjectFromFile b key filePath]) in
    match putObjectFromFile client b key filePath (files w) with
    | None => (Ok tt, w')
    | Some e => (Throw e, w')
    end.

(** lines 28-54 *)
Definition getCacheVersion (paths : loc) (compressionMethod : option string)
    (enableCrossOsArchive : option bool) : M string :=
  let enableCrossOsArchive := default false enableCrossOsArchive in
  do components <- Array_slice paths ;;
  exec when (truthy compressionMethod)
         (Array_push components (default EmptyString compressionMethod)) ;;
  exec when (String.eqb (platform env) "win32" && negb enableCrossOsArchive)
         (Array_push components "windows-only") ;;
  exec Array_push components versionSalt ;;
  do joined <- Array_join components "|" ;;
  ret (SHA256.sha256_hex joined).

(** The address of line 69 (and of line 129). *)
Definition objectAddress (name : string) : string :=
  "caches/" +:+ interpolate repo +:+ "/" +:+ interpolate ref +:+ "/"
    +:+ interpolate workflowHash +:+ "/" +:+ name.

Definition is_not_found (error : JsError) : bool :=
  match error with
  | TosServerError _ statusCode _ _ _ => statusCode =? 404
  | _ => false
  end.

(** lines 68-86: the [for] loop.  [Some entry] is the [return] inside the
    [try]; [None] is falling out of the loop. *)
Fixpoint getCacheEntry_loop (version : string) (keys : list string)
  : M (option ArtifactCacheEntry) :=
  match keys with
  | [] => ret None
  | key :: rest =>
      let objectKey := objectAddress key in
      do found <-
        try_catch
          (exec client_headObject bucket objectKey ;;
           ret (Some (mkEntry (Some key) None (Some version) None
                              (Some objectKey))))
          (fun error =>
             exec when (is_not_found error)
                    (console_warn ("Unable to find cache with key "
                                     +:+ objectKey +:+ ".")) ;;
             ret None) ;;
      match found with
      | Some entry => ret (Some entry)
      | None => getCacheEntry_loop version rest
      end
  end.

(** lines 56-92.  [keys] is only iterated and printed, so it is taken by
    value; [paths] is the reference handed to [getCacheVersion]. *)
Definition getCacheEntry (keys : list string) (paths : loc)
    (options : option InternalCacheOptions) : M ArtifactCacheEntry :=
  do version <- getCacheVersion paths
                  (options ≫= compressionMethod)
                  (options ≫= enableCrossOsArchive) ;;
  do found <- getCacheEntry_loop version keys ;;
  match found with
  | Some entry => ret entry
  | None =>
      let entry := mkEntry None None (Some version) None None in
      exec console_warn ("Failed to find cache that matches keys: "
                           +:+ String.concat "," keys) ;;
      ret entry
  end.

(** lines 94-105 *)
Definition downloadCache (objectKey archivePath : string)
    (options : option DownloadOptions) : M unit :=
  client_getObjectToFile bucket objectKey archivePath.

(** lines 107-120 *)
Definition handleError (error : JsError) : M unit :=
  match error with
  | TosClientError message stack =>
      exec console_log ("Client Err Msg: " +:+ message) ;;
      console_log ("Client Err Stack: " +:+ stack)
  | TosServerError requestId statusCode headers code message =>
      exec console_log ("Request ID: " +:+ requestId) ;;
      exec console_log ("Response Status Code: " +:+ Number_toString statusCode) ;;
      exec console_log ("Response Header: " +:+ headers) ;;
      exec console_log ("Response Err Code: " +:+ code) ;;
      console_log ("Response Err Msg: " +:+ message)
  | OtherError shown =>
      console_log ("unexpected exception, message:  " +:+ shown)
  end.

(** lines 122-138 *)
Definition uploadFile (cacheId archivePath : string)
    (options : option UploadOptions) : M unit :=
  try_catch
    (let objectName := objectAddress cacheId in
     client_putObjectFromFile bucket objectName archivePath)
    (fun error => handleError error).

(** Modelled from the spec: cacheUtils.getArchiveFileSizeInBytes is not
    among the sources.  The spec has the transfer layer determine the
    archive size and report the final size in bytes; this is the byte
    count of the file at the path, and a failure when there is none. *)
Definition getArchiveFileSizeInBytes (filePath : string) : M Z :=
  fun w => match files w !! filePath with
           | Some bytes => (Ok (Z.of_nat (length bytes)), w)
           | None => (Throw (OtherError ("Error: ENOENT: no such file or directory, stat '"
                                           +:+ filePath +:+ "'")), w)
           end.

(** lines 140-160 *)
Definition saveCache (cacheId archivePath : string)
    (options : option UploadOptions) : M unit :=
  exec core_debug "Upload cache" ;;
  exec uploadFile cacheId archivePath options ;;
  exec core_debug "Commiting cache" ;;
  do cacheSize <- getArchiveFileSizeInBytes archivePath ;;
  exec core_info ("Cache Size: ~"
                    +:+ Number_toString (Math_round_div cacheSize (1024 * 1024))
                    +:+ " MB (" +:+ Number_toString cacheSize +:+ " B)") ;;
  core_info "Cache saved successfully".

(** The earlier generation: lines 446-466 ([getCacheVersion] reads the same
    in both generations).  The version is computed and dropped; the
    response is built from the constant. *)
Definition reserveCacheVolc (key : string) (paths : loc)
    (options : option InternalCacheOptions) : M ReserveCacheResponse :=
  do version <- getCacheVersion paths
                  (options ≫= compressionMethod)
                  (options ≫= enableCrossOsArchive) ;;
  let cacheId := 1 in
  let response := mkReserve cacheId in
  ret response.

End ObjectStorageClient.

(** ** The earlier generation of the resolver (lines 266-307)

    Same loop and same addresses; it announces each address before the
    query and words its warnings differently. *)

Module Earlier.

Fixpoint getCacheEntry_loop (env : Env) (client : TosClient)
    (version : string) (keys : list string) : M (option ArtifactCacheEntry) :=
  match keys with
  | [] => ret None
  | key :: rest =>
      let objectKey := objectAddress env key in
      do found <-
        try_catch
          (exec console_warn (">> objectKey: " +:+ objectKey) ;;
           exec client_headObject client (bucket env) objectKey ;;
           ret (Some (mkEntry (Some key) None (Some version) None
                              (Some objectKey))))
          (fun error =>
             exec when (is_not_found error)
                    (console_warn ("The object " +:+ objectKey
                                     +:+ " doesn't exist.")) ;;
             ret None) ;;
      match found with
      | Some entry => ret (Some entry)
      | None => getCacheEntry_loop env client version rest
      end
  end.

Definition getCacheEntry (env : Env) (client : TosClient)
    (keys : list string) (paths : loc)
    (options : option InternalCacheOptions) : M ArtifactCacheEntry :=
  do version <- getCacheVersion env paths
                  (options ≫= compressionMethod)
                  (options ≫= enableCrossOsArchive) ;;
  do found <- getCacheEntry_loop env client version keys ;;
  match found with
  | Some entry => ret entry
  | None =>
      let entry := mkEntry None None (Some version) None None in
      exec console_warn ("unmatched keys " +:+ String.concat "," keys) ;;
      ret entry
  end.

End Earlier.

(** lines 468-475 *)
Definition getContentRange (start end_ : Z) : string :=
  "bytes " +:+ Number_toString start +:+ "-" +:+ Number_toString end_ +:+ "/*".

(** lines 205-214.  [process.env['ACTIONS_CACHE_URL'] || ''] is the entry
    when it is a non-empty string and the empty string otherwise; the
    thrown [Error] is kept as the text it prints as. *)
Definition getCacheApiUrl (ACTIONS_CACHE_URL : option string) (resource : string)
  : M string :=
  let baseUrl : string :=
    if truthy ACTIONS_CACHE_URL then default EmptyString ACTIONS_CACHE_URL
    else EmptyString in
  if negb (truthy (Some baseUrl))
  then throw (OtherError
                "Error: Cache Service Url not found, unable to restore cache.")
  else
    let url := baseUrl +:+ "_apis/artifactcache/" +:+ resource in
    exec core_debug ("Resource Url: " +:+ url) ;;
    ret url.

Arguments downloadCache env client {DownloadOptions} objectKey archivePath options.
Arguments uploadFile env client {UploadOptions} cacheId archivePath options.
Arguments saveCache env client {UploadOptions} cacheId archivePath options.

(** ** What the functions are compared with *)

(** The component list in the words of the specification: the paths, then
    the compression method when there is one, then the platform marker when
    running on Windows without cross-OS archiving, then the salt. *)
Definition spec_version_components (platform_ : string) (paths : list string)
    (compressionMethod : option string) (crossOs : bool) : list string :=
  paths
  ++ match compressionMethod with
     | Some (String c rest) => [String c rest]
     | _ => []
     end
  ++ (if String.eqb platform_ "win32" && negb crossOs then ["windows-only"] else [])
  ++ ["1.0"].

Definition spec_version (platform_ : string) (paths : list string)
    (compressionMethod : option string) (crossOs : bool) : string :=
  SHA256.sha256_hex
    (String.concat "|" (spec_version_components platform_ paths compressionMethod crossOs)).

Section Resolution.

Variable env : Env.
Variable client : TosClient.

(** The existence query answers for a key. *)
Definition exists_at (key : string) : bool :=
  match headObject client (bucket env) (objectAddress env key) with
  | None => true
  | Some _ => false
  end.

(** The first key whose address exists. *)
Fixpoint first_match (keys : list string) : option string :=
  match keys with
  | [] => None
  | key :: rest => if exists_at key then Some key else first_match rest
  end.

(** The keys up to and including the first match. *)
Fixpoint probed (keys : list string) : list string :=
  match keys with
  | [] => []
  | key :: rest => if exists_at key then [key] else key :: probed rest
  end.

Definition probe (key : string) : Request :=
  HeadObject (bucket env) (objectAddress env key).

(** The warnings of line 83, one per probed key the store reports as 404. *)
Fixpoint not_found_warnings (keys : list string) : list (Channel * string) :=
  match keys with
  | [] => []
  | key :: rest =>
      match headObject client (bucket env) (objectAddress env key) with
      | None => []
      | Some error =>
          (if is_not_found error
           then [(ConsoleWarn,
                  "Unable to find cache with key " +:+ objectAddress env key +:+ ".")]
           else [])
          ++ not_found_warnings rest
      end
  end.

End Resolution.

(** Two worlds that differ at most in what was printed. *)
Definition same_but_console (w1 w2 : World) : Prop :=
  heap w1 = heap w2 /\ files w1 = files w2 /\ requests w1 = requests w2.

(** What [handleError] prints. *)
Definition error_report (error : JsError) : list (Channel * string) :=
  match error with
  | TosClientError message stack =>
      [(ConsoleLog, "Client Err Msg: " +:+ message);
       (ConsoleLog, "Client Err Stack: " +:+ stack)]
  | TosServerError requestId statusCode headers code message =>
      [(ConsoleLog, "Request ID: " +:+ requestId);
       (ConsoleLog, "Response Status Code: " +:+ Number_toString statusCode);
       (ConsoleLog, "Response Header: " +:+ headers);
       (ConsoleLog, "Response Err Code: " +:+ code);
       (ConsoleLog, "Response Err Msg: " +:+ message)]
  | OtherError shown =>
      [(ConsoleLog, "unexpected exception, message:  " +:+ shown)]
  end.

(** Reading a decimal numeral back: digits only, at least one, and no
    leading zero except in "0" itself. *)
Definition digit_value (c : ascii) : option Z :=
  let n := Z.of_N (N_of_ascii c) in
  if (48 <=? n) && (n <=? 57) then Some (n - 48) else None.

Fixpoint digits_value (acc : Z) (s : string) : option Z :=
  match s with
  | EmptyString => Some acc
  | String c rest =>
      match digit_value c with
      | Some d => digits_value (10 * acc + d) rest
      | None => None
      end
  end.

Definition decimal_value (s : string) : option Z :=
  match s with
  | EmptyString => None
  | String "0" (String _ _) => None
  | _ => digits_value 0 s
  end.

(** The part of an object address that does not depend on the key. *)
Definition scope_prefix (env : Env) : string :=
  "caches/" +:+ interpolate (GITHUB_REPOSITORY env) +:+ "/"
    +:+ interpolate (GITHUB_REF env) +:+ "/"
    +:+ interpolate (GITHUB_WORKFLOW_SHA env) +:+ "/".

(** What is left of [s] after the prefix [pre], if [s] starts with it. *)
Fixpoint strip_prefix (pre s : string) : option string :=
  match pre, s with
  | EmptyString, _ => Some s
  | String a pre', String b s' =>
      if Ascii.eqb a b then strip_prefix pre' s' else None
  | String _ _, EmptyString => None
  end.

(** The longest prefix of digits, and the rest. *)
Fixpoint span_digits (s : string) : string * string :=
  match s with
  | EmptyString => (EmptyString, EmptyString)
  | String c rest =>
      match digit_value c with
      | Some _ => let '(digits, tail) := span_digits rest in (String c digits, tail)
      | None => (EmptyString, s)
      end
  end.

(** Reading a Content-Range header of the form [bytes START-END/*] back
    into its two offsets. *)
Definition parseContentRange (header : string) : option (Z * Z) :=
  match strip_prefix "bytes " header with
  | None => None
  | Some rest =>
      let '(first, rest1) := span_digits rest in
      match rest1 with
      | String "-" rest2 =>
          let '(last, rest3) := span_digits rest2 in
          if String.eqb rest3 "/*"
          then match decimal_value first, decimal_value last with
               | Some a, Some b => Some (a, b)
               | _, _ => None
               end
          else None
      | _ => None
      end
  end.

(** A lower-case hexadecimal digit. *)
Definition is_lower_hex (c : ascii) : bool :=
  let n := Z.of_N (N_of_ascii c) in
  ((48 <=? n) && (n <=? 57)) || ((97 <=? n) && (n <=? 102)).

(** A save, then a resolution of the same key, then a download of what the
    resolution found: the three calls a caller strings together. *)
Definition save_resolve_download (env : Env) (client : TosClient)
    (key archivePath destination : string) (paths : loc)
    (options : option InternalCacheOptions) : M unit :=
  exec saveCache env client key archivePath (@None unit) ;;
  do entry <- getCacheEntry env client [key] paths options ;;
  match objectKey entry with
  | Some address => downloadCache env client address destination (@None unit)
  | None => ret tt
  end.

(** ** Concrete surroundings used in the instances below *)

(** A Linux runner in repository [r], on ref [main], workflow digest [h]. *)
Definition runner_env : Env :=
  mkEnv (Some "cache-bucket") (Some "r") (Some "h") (Some "main") "linux".

(** A world whose only array is the path list ["/a", "/b"], at reference 0. *)
Definition paths_world : World := mkWorld [["/a"; "/b"]] [] ∅ [].

(** A world holding a three-byte archive. *)
Definition archive_world : World :=
  mkWorld [] [] {[ "/tmp/cache.tzst" := [Byte.x28; Byte.xb5; Byte.x2f] ]} [].

(** A store that knows no object: every existence query is answered 404. *)
Definition not_found : JsError :=
  TosServerError "req-1" 404 "{}" "NoSuchKey" "The specified key does not exist.".

Definition empty_store : TosClient :=
  mkTosClient
    (fun _ _ => Some not_found)
    (fun _ _ => mkGetReply 0 [])
    (fun _ _ _ fs => (fs, Some not_found))
    (fun _ _ _ _ => None).

(** A store whose only object is [caches/r/main/h/lock-]. *)
Definition lock_prefix_store : TosClient :=
  mkTosClient
    (fun _ key => if String.eqb key "caches/r/main/h/lock-" then None else Some not_found)
    (fun _ _ => mkGetReply 0 [])
    (fun _ _ _ fs => (fs, Some not_found))
    (fun _ _ _ _ => None).

(** A store that refuses every request: 403 AccessDenied. *)
Definition access_denied : JsError :=
  TosServerError "req-2" 403 "{}" "AccessDenied" "Access Denied.".

Definition forbidden_store : TosClient :=
  mkTosClient
    (fun _ _ => Some access_denied)
    (fun _ _ => mkGetReply 0 [])
    (fun _ _ _ fs => (fs, Some access_denied))
    (fun _ _ _ _ => Some access_denied).

(** A store that declares five bytes and delivers two; the SDK writes what
    arrives to the destination and rejects at the premature end. *)
Definition premature_end : JsError :=
  TosClientError "aborted" "Error: aborted".

Definition short_store : TosClient :=
  mkTosClient
    (fun _ _ => None)
    (fun _ _ => mkGetReply 5 [Byte.x68; Byte.x65])
    (fun _ _ filePath fs => (<[filePath := [Byte.x68; Byte.x65]]> fs, Some premature_end))
    (fun _ _ _ _ => None).

(** The same store behind an SDK that resolves when the stream ends. *)
Definition short_store_silent : TosClient :=
  mkTosClient
    (fun _ _ => None)
    (fun _ _ => mkGetReply 5 [Byte.x68; Byte.x65])
    (fun _ _ filePath fs => (<[filePath := [Byte.x68; Byte.x65]]> fs, None))
    (fun _ _ _ _ => None).

(** * SHA-256 on the test vectors of the standard *)

(** First and last constant, in the hexadecimal of the standard. *)
Example K_ends : nth 0 SHA256.K 0 = 0x428a2f98 /\ nth 63 SHA256.K 0 = 0xc67178f2 /\ length SHA256.K = 64%nat.
Proof. repeat split. Qed.

Example sha256_empty :
  SHA256.sha256_hex EmptyString =
  "e3b0c44298fc1c149afbf4c8996fb92427ae41e4649b934ca495991b7852b855".
Proof. vm_compute. reflexivity. Qed.

Example sha256_abc :
  SHA256.sha256_hex "abc" =
  "ba7816bf8f01cfea414140de5dae2223b00361a396177a9cb410ff61f20015ad".
Proof. vm_compute. reflexivity. Qed.

Example sha256_two_blocks :
  SHA256.sha256_hex "abcdbcdecdefdefgefghfghighijhijkijkljklmklmnlmnomnopnopq" =
  "248d6a61d20638b8e5c026930c3e6039a33ce45964ff2167f6ecedd419db06c1".
Proof. vm_compute. reflexivity. Qed.

(** * Stepping through the primitives *)

Lemma lookup_snoc_last {A} (l : list A) (x : A) : (l ++ [x]) !! length l = Some x.
Proof. rewrite lookup_app_r by lia. by rewrite Nat.sub_diag. Qed.

Lemma insert_snoc_last {A} (l : list A) (x y : A) :
  <[length l := y]> (l ++ [x]) = l ++ [y].
Proof.
  rewrite insert_app_r_alt by lia. by rewrite Nat.sub_diag.
Qed.

Lemma Array_slice_run w p xs :
  heap w !! p = Some xs ->
  Array_slice p w =
    (Ok (length (heap w)),
     mkWorld (heap w ++ [xs]) (console w) (files w) (requests w)).
Proof. intros H. unfold Array_slice, bind, Array_read. by rewrite H. Qed.

Lemma Array_push_last h xs x c f r :
  Array_push (length h) x (mkWorld (h ++ [xs]) c f r) =
    (Ok tt, mkWorld (h ++ [xs ++ [x]]) c f r).
Proof.
  unfold Array_push, bind, Array_read; cbn [heap console files requests].
  rewrite lookup_snoc_last; cbn [heap console files requests].
  by rewrite insert_snoc_last.
Qed.

Lemma Array_join_last h xs sep c f r :
  Array_join (length h) sep (mkWorld (h ++ [xs]) c f r) =
    (Ok (String.concat sep xs), mkWorld (h ++ [xs]) c f r).
Proof.
  unfold Array_join, bind, Array_read, ret; cbn [heap].
  by rewrite lookup_snoc_last.
Qed.

Lemma truthy_components cm :
  (if truthy cm then [default EmptyString cm] else []) =
  match cm with
  | Some (String c rest) => [String c rest]
  | _ => []
  end.
Proof. by destruct cm as [[|]|]. Qed.

(** [getCacheVersion] on an allocated array: the digest of the joined
    components; the only change to the world is the fresh array. *)
Lemma getCacheVersion_run env w p P cm x :
  heap w !! p = Some P ->
  getCacheVersion env p cm x w =
    (Ok (spec_version (platform env) P cm (default false x)),
     mkWorld (heap w ++ [spec_version_components (platform env) P cm (default false x)])
             (console w) (files w) (requests w)).
Proof.
  intros HP. unfold getCacheVersion, spec_version, spec_version_components.
  rewrite <- truthy_components.
  unfold bind at 1. rewrite (Array_slice_run _ _ _ HP).
  unfold bind at 1.
  assert (Hcm : when (truthy cm)
            (Array_push (length (heap w)) (default EmptyString cm))
            (mkWorld (heap w ++ [P]) (console w) (files w) (requests w)) =
          (Ok tt, mkWorld (heap w ++ [P ++ (if truthy cm then [default EmptyString cm] else [])])
                          (console w) (files w) (requests w))).
  { destruct (truthy cm); cbn [when].
    - apply Array_push_last.
    - unfold ret. by rewrite app_nil_r. }
  rewrite Hcm. clear Hcm.
  set (P1 := P ++ (if truthy cm then [default EmptyString cm] else [])).
  unfold bind at 1.
  set (win := (String.eqb (platform env) "win32" && negb (default false x))%bool).
  assert (Hwin : when win (Array_push (length (heap w)) "windows-only")
            (mkWorld (heap w ++ [P1]) (console w) (files w) (requests w)) =
          (Ok tt, mkWorld (heap w ++ [P1 ++ (if win then ["windows-only"] else [])])
                          (console w) (files w) (requests w))).
  { destruct win; cbn [when].
    - apply Array_push_last.
    - unfold ret. by rewrite app_nil_r. }
  rewrite Hwin. clear Hwin.
  unfold bind at 1. rewrite Array_push_last.
  unfold bind at 1. rewrite Array_join_last.
  unfold ret, versionSalt, P1. by rewrite <- !app_assoc.
Qed.

(** * Resolution: the loop and the function around it *)

Section ResolutionFacts.

Variable env : Env.
Variable client : TosClient.

(** The loop never throws: it answers with the first match, and the world
    records one request per probed key and one warning per 404. *)
Lemma getCacheEntry_loop_run version keys w :
  getCacheEntry_loop env client version keys w =
    (Ok (match first_match env client keys with
         | Some key => Some (mkEntry (Some key) None (Some version) None
                                     (Some (objectAddress env key)))
         | None => None
         end),
     mkWorld (heap w)
             (console w ++ not_found_warnings env client keys)
             (files w)
             (requests w ++ map (probe env) (probed env client keys))).
Proof.
  revert w. induction keys as [|key rest IH]; intros w.
  - destruct w; cbn. unfold ret. by rewrite !app_nil_r.
  - cbn [getCacheEntry_loop first_match probed not_found_warnings].
    unfold exists_at, bind at 1, try_catch, bind at 1, client_headObject.
    destruct (headObject client (bucket env) (objectAddress env key)) as [error|].
    + unfold bind at 1. destruct (is_not_found error); cbn [when].
      * unfold console_warn, emit, ret; cbn [heap console files requests].
        rewrite IH; cbn [heap console files requests map probe].
        by rewrite <- !app_assoc.
      * unfold ret. rewrite IH; cbn [heap console files requests map probe].
        by rewrite <- !app_assoc.
    + unfold ret; cbn [map probe]. by rewrite app_nil_r.
Qed.

Lemma getCacheEntry_run keys p P options w :
  heap w !! p = Some P ->
  let cm := options ≫= compressionMethod in
  let crossOs := default false (options ≫= enableCrossOsArchive) in
  let version := spec_version (platform env) P cm crossOs in
  getCacheEntry env client keys p options w =
    (Ok (match first_match env client keys with
         | Some key => mkEntry (Some key) None (Some version) None
                               (Some (objectAddress env key))
         | None => mkEntry None None (Some version) None None
         end),
     mkWorld (heap w ++ [spec_version_components (platform env) P cm crossOs])
             (console w ++ not_found_warnings env client keys
                ++ match first_match env client keys with
                   | Some _ => []
                   | None => [(ConsoleWarn,
                               "Failed to find cache that matches keys: "
                                 +:+ String.concat "," keys)]
                   end)
             (files w)
             (requests w ++ map (probe env) (probed env client keys))).
Proof.
  intros HP cm crossOs version. unfold getCacheEntry.
  unfold bind at 1. rewrite (getCacheVersion_run _ _ _ _ _ _ HP).
  unfold bind at 1. rewrite getCacheEntry_loop_run.
  cbn [heap console files requests]. fold cm crossOs version.
  destruct (first_match env client keys) as [key|].
  - unfold ret. by rewrite app_nil_r.
  - unfold bind, console_warn, emit, ret; cbn [heap console files requests].
    by rewrite <- app_assoc.
Qed.

Lemma first_match_app pre key post :
  (forall k, In k pre -> exists_at env client k = false) ->
  exists_at env client key = true ->
  first_match env client (pre ++ key :: post) = Some key
  /\ probed env client (pre ++ key :: post) = pre ++ [key].
Proof.
  intros Hpre Hkey. induction pre as [|k pre IH]; cbn.
  - by rewrite Hkey.
  - rewrite (Hpre k) by (by left).
    destruct IH as [-> ->]; [|done].
    intros k' Hk'. apply Hpre. by right.
Qed.

Lemma first_match_none keys :
  (forall k, In k keys -> exists_at env client k = false) ->
  first_match env client keys = None /\ probed env client keys = keys.
Proof.
  intros Hall. induction keys as [|k keys IH]; cbn; [done|].
  rewrite (Hall k) by (by left).
  destruct IH as [-> ->]; [|done].
  intros k' Hk'. apply Hall. by right.
Qed.

End ResolutionFacts.

(** The two generations of the loop answer alike and send the same
    requests. *)
Lemma Earlier_loop_agrees env client version keys : forall w1 w2,
  same_but_console w1 w2 ->
  exists found w1' w2',
    Earlier.getCacheEntry_loop env client version keys w1 = (found, w1')
    /\ getCacheEntry_loop env client version keys w2 = (found, w2')
    /\ same_but_console w1' w2'.
Proof.
  induction keys as [|key rest IH]; intros w1 w2 Hsame.
  - by exists (Ok None), w1, w2.
  - destruct Hsame as (Hh & Hf & Hr).
    cbn [Earlier.getCacheEntry_loop getCacheEntry_loop].
    unfold bind, try_catch, console_warn, emit, client_headObject.
    cbn [heap console files requests].
    destruct (headObject client (bucket env) (objectAddress env key)) as [error|].
    + destruct (is_not_found error); cbn [when]; unfold ret;
        cbn [heap console files requests];
        apply IH; unfold same_but_console; cbn [heap console files requests];
        by rewrite Hh, Hf, Hr.
    + eexists _, _, _. unfold ret. split; [reflexivity|]. split; [reflexivity|].
      unfold same_but_console; cbn. by rewrite Hh, Hf, Hr.
Qed.

(** X9: the earlier generation of getCacheEntry and the current one return
    the same result (the same entry, or the same error) and leave the same
    arrays, local files and request trace; they differ only in what they
    print. *)
Lemma Earlier_getCacheEntry_agrees env client keys p options w :
  exists result w1 w2,
    Earlier.getCacheEntry env client keys p options w = (result, w1)
    /\ getCacheEntry env client keys p options w = (result, w2)
    /\ same_but_console w1 w2.
Proof.
  unfold Earlier.getCacheEntry, getCacheEntry. unfold bind at 1 4.
  destruct (getCacheVersion env p _ _ w) as [[version|e] w0];
    [|by exists (Throw e), w0, w0].
  unfold bind at 1 3.
  destruct (Earlier_loop_agrees env client version keys w0 w0
              (conj eq_refl (conj eq_refl eq_refl)))
    as (found & w1 & w2 & -> & -> & Hsame).
  destruct found as [[entry|]|e];
    [by exists (Ok entry), w1, w2 | | by exists (Throw e), w1, w2].
  eexists _, _, _. unfold bind, console_warn, emit, ret.
  split; [reflexivity|]. split; [reflexivity|].
  unfold same_but_console in *. by cbn.
Qed.

(** The hexadecimal digest always has 64 characters. *)
Lemma sha256_hex_length s : String.length (SHA256.sha256_hex s) = 64%nat.
Proof. reflexivity. Qed.

(** * Cache version *)

(** C4: the version is the hexadecimal SHA-256 digest of the paths, then the
    compression method if present, then the platform marker if applicable,
    then the salt "1.0", joined by "|" in that order; off Windows,
    getCacheVersion(["/a","/b"], "zstd", ...) is the digest of
    "/a|/b|zstd|1.0". *)
Theorem getCacheVersion_digest env w p P cm x :
  heap w !! p = Some P ->
  fst (getCacheVersion env p cm x w) =
    Ok (SHA256.sha256_hex
          (String.concat "|"
             (spec_version_components (platform env) P cm (default false x))))
  /\ (platform env <> "win32" -> P = ["/a"; "/b"] -> cm = Some "zstd" ->
      fst (getCacheVersion env p cm x w) = Ok (SHA256.sha256_hex "/a|/b|zstd|1.0")).
Proof.
  intros HP. rewrite (getCacheVersion_run _ _ _ _ _ _ HP). split; [done|].
  intros Hplat -> ->. cbn [fst]. unfold spec_version, spec_version_components.
  apply String.eqb_neq in Hplat. by rewrite Hplat.
Qed.

Lemma getCacheVersion_digest_witness :
  fst (getCacheVersion runner_env 0%nat (Some "zstd") None paths_world) =
    Ok (SHA256.sha256_hex "/a|/b|zstd|1.0").
Proof.
  apply (getCacheVersion_digest runner_env paths_world 0%nat ["/a"; "/b"]
           (Some "zstd") None);
    [reflexivity | discriminate | reflexivity | reflexivity].
Defined.

(** The digest of scenario 1, spelled out. *)
Example getCacheVersion_scenario_1 :
  fst (getCacheVersion runner_env 0%nat (Some "zstd") None paths_world) =
    Ok "b2a8996727b35069431c9c0b9097aefca21825f5b20e1da4ba1dd559c0b3f736".
Proof. vm_compute. reflexivity. Qed.

(** On Windows without cross-OS archiving the marker sits between the
    compression method and the salt. *)
Example getCacheVersion_windows :
  heap (snd (getCacheVersion
               (mkEnv None None None None "win32") 0%nat (Some "gzip") (Some false)
               paths_world)) !! 1%nat
  = Some ["/a"; "/b"; "gzip"; "windows-only"; "1.0"].
Proof. vm_compute. reflexivity. Qed.

(** C8: getCacheVersion is deterministic and leaves its argument alone: the
    call succeeds, the caller's list still holds the same elements, no
    array that existed before is changed, a repeated call and any call on
    a list with the same elements give the same version, and pushing onto
    another array (a copy of the list, say) afterwards does not change what
    a later call on the original list returns. *)
Theorem getCacheVersion_deterministic env w p P cm x :
  heap w !! p = Some P ->
  exists v w',
    getCacheVersion env p cm x w = (Ok v, w')
    /\ heap w' !! p = Some P
    /\ (forall q Q, heap w !! q = Some Q -> heap w' !! q = Some Q)
    /\ console w' = console w /\ files w' = files w /\ requests w' = requests w
    /\ fst (getCacheVersion env p cm x w') = Ok v
    /\ (forall w2 p2, heap w2 !! p2 = Some P ->
          fst (getCacheVersion env p2 cm x w2) = Ok v)
    /\ (forall q Q y, q <> p -> heap w' !! q = Some Q ->
          heap (snd (Array_push q y w')) !! q = Some (Q ++ [y])
          /\ heap (snd (Array_push q y w')) !! p = Some P
          /\ fst (getCacheVersion env p cm x (snd (Array_push q y w'))) = Ok v).
Proof.
  intros HP. eexists _, _. split; [apply (getCacheVersion_run _ _ _ _ _ _ HP)|].
  cbn [heap console files requests].
  assert (Hkeep : forall q Q, heap w !! q = Some Q ->
            (heap w ++ [spec_version_components (platform env) P cm (default false x)]) !! q
            = Some Q).
  { intros q Q HQ. by apply lookup_app_l_Some. }
  assert (Hsame : forall w2 p2, heap w2 !! p2 = Some P ->
            fst (getCacheVersion env p2 cm x w2)
            = Ok (spec_version (platform env) P cm (default false x))).
  { intros w2 p2 H2. by rewrite (getCacheVersion_run _ _ _ _ _ _ H2). }
  split; [by apply Hkeep|]. split; [exact Hkeep|].
  do 3 (split; [reflexivity|]).
  split; [apply Hsame; cbn [heap]; by apply Hkeep|].
  split; [exact Hsame|].
  intros q Q y Hq HQ.
  assert (Hpush : heap (snd (Array_push q y
            (mkWorld (heap w ++ [spec_version_components (platform env) P cm (default false x)])
                     (console w) (files w) (requests w))))
          = <[q := Q ++ [y]]>
              (heap w ++ [spec_version_components (platform env) P cm (default false x)])).
  { unfold Array_push, bind, Array_read. cbn [heap]. by rewrite HQ. }
  rewrite Hpush. split; [|split].
  - apply list_lookup_insert_eq. by eapply lookup_lt_Some.
  - rewrite list_lookup_insert_ne by done. by apply Hkeep.
  - apply Hsame. rewrite Hpush.
    rewrite list_lookup_insert_ne by done. by apply Hkeep.
Qed.

Lemma getCacheVersion_deterministic_witness :
  exists v w',
    getCacheVersion runner_env 0%nat (Some "zstd") None paths_world = (Ok v, w')
    /\ heap w' !! 0%nat = Some ["/a"; "/b"]
    /\ fst (getCacheVersion runner_env 0%nat (Some "zstd") None w') = Ok v.
Proof.
  destruct (getCacheVersion_deterministic runner_env paths_world 0%nat ["/a"; "/b"]
              (Some "zstd") None eq_refl)
    as (v & w' & Hrun & Hp & _ & _ & _ & _ & Hagain & _).
  exists v, w'. auto.
Defined.

(** * Resolution *)

(** C3: keys are probed in the given order at the address
    caches/{repo}/{ref}/{workflowHash}/{key}; at the first key whose
    address exists the entry returned has that key as cacheKey and that
    address as objectKey, and no later key is probed. *)
Theorem getCacheEntry_first_match env client pre key post p P options w :
  heap w !! p = Some P ->
  (forall k, In k pre ->
     headObject client (BUCKET_NAME env) (objectAddress env k) <> None) ->
  headObject client (BUCKET_NAME env) (objectAddress env key) = None ->
  exists entry w',
    getCacheEntry env client (pre ++ key :: post) p options w = (Ok entry, w')
    /\ cacheKey entry = Some key
    /\ objectKey entry = Some (objectAddress env key)
    /\ objectAddress env key =
         "caches/" +:+ interpolate (GITHUB_REPOSITORY env) +:+ "/"
           +:+ interpolate (GITHUB_REF env) +:+ "/"
           +:+ interpolate (GITHUB_WORKFLOW_SHA env) +:+ "/" +:+ key
    /\ requests w' =
         requests w
         ++ map (fun k => HeadObject (BUCKET_NAME env) (objectAddress env k))
                (pre ++ [key]).
Proof.
  intros HP Hpre Hkey.
  destruct (first_match_app env client pre key post) as [Hfirst Hprobed].
  - intros k Hk. unfold exists_at, bucket.
    specialize (Hpre k Hk). by destruct (headObject client _ _).
  - unfold exists_at, bucket. by rewrite Hkey.
  - eexists _, _. split; [apply (getCacheEntry_run _ _ _ _ _ _ _ HP)|].
    rewrite Hfirst, Hprobed. by cbn.
Qed.

(** Scenario 2: keys ["lock-abc", "lock-"], only caches/r/main/h/lock-
    exists. *)
Lemma getCacheEntry_first_match_witness :
  exists entry w',
    getCacheEntry runner_env lock_prefix_store ["lock-abc"; "lock-"] 0%nat None
                  paths_world = (Ok entry, w')
    /\ cacheKey entry = Some "lock-"
    /\ objectKey entry = Some "caches/r/main/h/lock-"
    /\ requests w' =
         [HeadObject (Some "cache-bucket") "caches/r/main/h/lock-abc";
          HeadObject (Some "cache-bucket") "caches/r/main/h/lock-"].
Proof.
  destruct (getCacheEntry_first_match runner_env lock_prefix_store
              ["lock-abc"] "lock-" [] 0%nat ["/a"; "/b"] None paths_world)
    as (entry & w' & Hrun & Hkey & Hobj & _ & Hreq).
  - reflexivity.
  - intros k [<-|[]]. vm_compute. discriminate.
  - reflexivity.
  - exists entry, w'. repeat split; assumption.
Defined.

(** C7: when no key's address exists the result is a miss: cacheKey and
    objectKey are unset and cacheVersion is the computed version, a
    non-empty string (64 hexadecimal characters). *)
Theorem getCacheEntry_miss env client keys p P options w :
  heap w !! p = Some P ->
  (forall k, In k keys ->
     headObject client (BUCKET_NAME env) (objectAddress env k) <> None) ->
  exists version w',
    getCacheEntry env client keys p options w =
      (Ok (mkEntry None None (Some version) None None), w')
    /\ fst (getCacheVersion env p (options ≫= compressionMethod)
              (options ≫= enableCrossOsArchive) w) = Ok version
    /\ version <> EmptyString
    /\ String.length version = 64%nat.
Proof.
  intros HP Hall.
  destruct (first_match_none env client keys) as [Hnone _].
  - intros k Hk. unfold exists_at, bucket.
    specialize (Hall k Hk). by destruct (headObject client _ _).
  - pose proof (getCacheEntry_run env client keys p P options w HP) as Hrun.
    cbv zeta in Hrun. rewrite Hnone in Hrun.
    eexists _, _. split; [exact Hrun|].
    split; [by rewrite (getCacheVersion_run _ _ _ _ _ _ HP)|].
    split; [|apply sha256_hex_length].
    intros Hempty.
    pose proof (sha256_hex_length
      (String.concat "|"
         (spec_version_components (platform env) P (options ≫= compressionMethod)
            (default false (options ≫= enableCrossOsArchive))))) as Hlen.
    unfold spec_version in Hempty. rewrite Hempty in Hlen. discriminate Hlen.
Qed.

Lemma getCacheEntry_miss_witness :
  exists version w',
    getCacheEntry runner_env empty_store ["lock-abc"; "lock-"] 0%nat None paths_world =
      (Ok (mkEntry None None (Some version) None None), w')
    /\ version <> EmptyString.
Proof.
  destruct (getCacheEntry_miss runner_env empty_store ["lock-abc"; "lock-"]
              0%nat ["/a"; "/b"] None paths_world)
    as (version & w' & Hrun & _ & Hne & _).
  - reflexivity.
  - intros k _. discriminate.
  - exists version, w'. split; assumption.
Defined.

(** C10: the addresses probed for a key list depend on the environment and
    the keys only, never on the computed version: two calls with the same
    keys and environment but different path lists or options send the same
    requests and agree on hit or miss, on cacheKey and on objectKey. *)
Theorem getCacheEntry_version_independent
    env client keys w1 p1 P1 options1 w2 p2 P2 options2 :
  heap w1 !! p1 = Some P1 ->
  heap w2 !! p2 = Some P2 ->
  exists e1 w1' e2 w2' sent,
    getCacheEntry env client keys p1 options1 w1 = (Ok e1, w1')
    /\ getCacheEntry env client keys p2 options2 w2 = (Ok e2, w2')
    /\ requests w1' = requests w1 ++ sent
    /\ requests w2' = requests w2 ++ sent
    /\ sent = map (fun k => HeadObject (BUCKET_NAME env) (objectAddress env k))
                  (probed env client keys)
    /\ cacheKey e1 = cacheKey e2
    /\ objectKey e1 = objectKey e2
    /\ cacheKey e1 = first_match env client keys
    /\ objectKey e1 = objectAddress env <$> first_match env client keys.
Proof.
  intros H1 H2.
  pose proof (getCacheEntry_run env client keys p1 P1 options1 w1 H1) as Hrun1.
  pose proof (getCacheEntry_run env client keys p2 P2 options2 w2 H2) as Hrun2.
  cbv zeta in Hrun1, Hrun2.
  eexists _, _, _, _, _. split; [exact Hrun1|]. split; [exact Hrun2|].
  cbn [requests]. do 3 (split; [reflexivity|]).
  destruct (first_match env client keys); by cbn.
Qed.

(** The same keys resolved for two different path lists and compression
    methods: different versions, same requests, same hit. *)
Lemma getCacheEntry_version_independent_witness :
  exists e1 w1' e2 w2',
    getCacheEntry runner_env lock_prefix_store ["lock-abc"; "lock-"] 0%nat None
      paths_world = (Ok e1, w1')
    /\ getCacheEntry runner_env lock_prefix_store ["lock-abc"; "lock-"] 0%nat
         (Some (mkOptions (Some "gzip") None None))
         (mkWorld [["/c"]] [] ∅ []) = (Ok e2, w2')
    /\ requests w1' = requests w2'
    /\ cacheKey e1 = cacheKey e2
    /\ objectKey e1 = objectKey e2.
Proof.
  destruct (getCacheEntry_version_independent runner_env lock_prefix_store
              ["lock-abc"; "lock-"]
              paths_world 0%nat ["/a"; "/b"] None
              (mkWorld [["/c"]] [] ∅ []) 0%nat ["/c"]
              (Some (mkOptions (Some "gzip") None None)) eq_refl eq_refl)
    as (e1 & w1' & e2 & w2' & sent & Hrun1 & Hrun2 & Hreq1 & Hreq2 & _ & Hk & Ho & _).
  exists e1, w1', e2, w2'. split; [exact Hrun1|]. split; [exact Hrun2|].
  split; [by rewrite Hreq1, Hreq2|]. split; assumption.
Defined.

Example versions_differ :
  spec_version "linux" ["/a"; "/b"] None false <> spec_version "linux" ["/c"] (Some "gzip") false.
Proof. vm_compute. discriminate. Qed.

(** The loop's [catch] tells 404 apart only to print the warning; whatever
    the existence query rejects with, the call completes. *)
Lemma getCacheEntry_never_rejects env client keys p P options w :
  heap w !! p = Some P ->
  exists entry w', getCacheEntry env client keys p options w = (Ok entry, w').
Proof.
  intros HP. eexists _, _. apply (getCacheEntry_run _ _ _ _ _ _ _ HP).
Qed.

(** C2: a 404 from the existence query is a normal negative result, and the
    claim has every other error propagated.  Here the store answers 403 to
    every query: the call still completes, with a miss, after probing both
    keys; the error is not surfaced and not even logged. *)
Theorem getCacheEntry_swallows_access_denied :
  headObject forbidden_store (bucket runner_env)
    (objectAddress runner_env "lock-abc") = Some access_denied
  /\ is_not_found access_denied = false
  /\ exists version,
      getCacheEntry runner_env forbidden_store ["lock-abc"; "lock-"] 0%nat None
        paths_world =
      (Ok (mkEntry None None (Some version) None None),
       mkWorld [["/a"; "/b"]; ["/a"; "/b"; "1.0"]]
               [(ConsoleWarn,
                 "Failed to find cache that matches keys: lock-abc,lock-")]
               ∅
               [HeadObject (Some "cache-bucket") "caches/r/main/h/lock-abc";
                HeadObject (Some "cache-bucket") "caches/r/main/h/lock-"]).
Proof.
  split; [reflexivity|]. split; [reflexivity|].
  eexists. vm_compute. reflexivity.
Qed.

(** The part of C2 that holds: 404 answers are skipped with a warning. *)
Example getCacheEntry_not_found_is_a_miss :
  exists version,
    getCacheEntry runner_env empty_store ["lock-abc"] 0%nat None paths_world =
    (Ok (mkEntry None None (Some version) None None),
     mkWorld [["/a"; "/b"]; ["/a"; "/b"; "1.0"]]
             [(ConsoleWarn, "Unable to find cache with key caches/r/main/h/lock-abc.");
              (ConsoleWarn, "Failed to find cache that matches keys: lock-abc")]
             ∅
             [HeadObject (Some "cache-bucket") "caches/r/main/h/lock-abc"]).
Proof. eexists. vm_compute. reflexivity. Qed.

(** * Saving *)

Lemma handleError_run error w :
  handleError error w =
    (Ok tt, mkWorld (heap w) (console w ++ error_report error) (files w) (requests w)).
Proof.
  destruct error; cbn; unfold bind, console_log, emit;
    cbn [heap console files requests]; by rewrite <- ?app_assoc.
Qed.

(** [uploadFile] completes whatever the put does: a rejection is printed
    and dropped. *)
Lemma uploadFile_run env client {U} cacheId archivePath (options : option U) w :
  uploadFile env client cacheId archivePath options w =
    (Ok tt,
     mkWorld (heap w)
             (console w
                ++ match putObjectFromFile client (bucket env)
                           (objectAddress env cacheId) archivePath (files w) with
                   | Some error => error_report error
                   | None => []
                   end)
             (files w)
             (requests w ++ [PutObjectFromFile (bucket env)
                               (objectAddress env cacheId) archivePath])).
Proof.
  unfold uploadFile, try_catch, client_putObjectFromFile.
  destruct (putObjectFromFile client _ _ _ _) as [error|].
  - by rewrite handleError_run.
  - by rewrite app_nil_r.
Qed.

(** After a rejected put, on an archive that is there, [saveCache] carries
    on through the commit section and ends with the success message. *)
Lemma saveCache_after_failed_upload env client {U} cacheId archivePath
    (options : option U) w error bytes :
  putObjectFromFile client (bucket env) (objectAddress env cacheId) archivePath
    (files w) = Some error ->
  files w !! archivePath = Some bytes ->
  exists w',
    saveCache env client cacheId archivePath options w = (Ok tt, w')
    /\ console w' =
         console w
         ++ [(CoreDebug, "Upload cache")] ++ error_report error
         ++ [(CoreDebug, "Commiting cache");
             (CoreInfo, "Cache Size: ~"
                +:+ Number_toString
                      (Math_round_div (Z.of_nat (length bytes)) (1024 * 1024))
                +:+ " MB (" +:+ Number_toString (Z.of_nat (length bytes)) +:+ " B)");
             (CoreInfo, "Cache saved successfully")].
Proof.
  intros Hput Hfile. eexists. unfold saveCache.
  unfold bind at 1, core_debug, emit. cbn [heap console files requests].
  unfold bind at 1. rewrite uploadFile_run. cbn [heap console files requests].
  rewrite Hput.
  unfold bind at 1, emit. cbn [heap console files requests].
  unfold bind at 1, getArchiveFileSizeInBytes. cbn [heap console files requests].
  rewrite Hfile.
  unfold bind at 1, core_info, emit. cbn [heap console files requests].
  split; [reflexivity|]. cbn [console]. by rewrite <- !app_assoc.
Qed.

(** C1: [saveCache] is claimed to surface a failed upload and not to report
    success.  Here the put is rejected with 403: the call completes
    normally, passes the commit section and prints the success message. *)
Theorem saveCache_reports_success_after_failed_upload :
  putObjectFromFile forbidden_store (bucket runner_env)
    (objectAddress runner_env "lock-abc") "/tmp/cache.tzst" (files archive_world)
    = Some access_denied
  /\ saveCache runner_env forbidden_store "lock-abc" "/tmp/cache.tzst" (@None unit)
       archive_world =
     (Ok tt,
      mkWorld []
        [(CoreDebug, "Upload cache");
         (ConsoleLog, "Request ID: req-2");
         (ConsoleLog, "Response Status Code: 403");
         (ConsoleLog, "Response Header: {}");
         (ConsoleLog, "Response Err Code: AccessDenied");
         (ConsoleLog, "Response Err Msg: Access Denied.");
         (CoreDebug, "Commiting cache");
         (CoreInfo, "Cache Size: ~0 MB (3 B)");
         (CoreInfo, "Cache saved successfully")]
        (files archive_world)
        [PutObjectFromFile (Some "cache-bucket") "caches/r/main/h/lock-abc"
           "/tmp/cache.tzst"]).
Proof.
  split; [reflexivity|]. vm_compute. reflexivity.
Qed.

(** * Reservation in the storage-direct mode *)

(** C5, as claimed: two invocations return different identifiers.  Two
    invocations in a row, for different keys, both return 1. *)
Lemma reserveCacheVolc_identifiers_repeat :
  ~ (forall env key1 key2 p options w r1 w1 r2 w2,
       reserveCacheVolc env key1 p options w = (Ok r1, w1) ->
       reserveCacheVolc env key2 p options w1 = (Ok r2, w2) ->
       cacheId r1 <> cacheId r2).
Proof.
  intros Hclaim.
  refine (Hclaim runner_env "lock-abc" "lock-def" 0%nat None paths_world
            (mkReserve 1) _ (mkReserve 1) _ _ _ eq_refl).
  - vm_compute. reflexivity.
  - vm_compute. reflexivity.
Qed.

(** C5, amended: every invocation is granted the identifier 1, whatever the
    key, the paths and the options, and without a request to the store. *)
Theorem reserveCacheVolc_constant env key p P options w :
  heap w !! p = Some P ->
  exists w',
    reserveCacheVolc env key p options w = (Ok (mkReserve 1), w')
    /\ requests w' = requests w
    /\ console w' = console w
    /\ files w' = files w.
Proof.
  intros HP. eexists. unfold reserveCacheVolc.
  unfold bind. rewrite (getCacheVersion_run _ _ _ _ _ _ HP).
  unfold ret. by cbn.
Qed.

Lemma reserveCacheVolc_constant_witness :
  exists w',
    reserveCacheVolc runner_env "lock-abc" 0%nat None paths_world
      = (Ok (mkReserve 1), w')
    /\ requests w' = [].
Proof.
  destruct (reserveCacheVolc_constant runner_env "lock-abc" 0%nat ["/a"; "/b"]
              None paths_world eq_refl) as (w' & Hrun & Hreq & _).
  exists w'. split; assumption.
Defined.

(** * Download *)

(** C6, as claimed: a short delivery makes downloadCache fail and leaves no
    file at the destination.  With [short_store] the call fails, and the
    two bytes that arrived stay at the destination. *)
Lemma downloadCache_keeps_partial_file :
  ~ (forall env client objectKey archivePath (options : option unit) w,
       Z.of_nat (length (delivered (getObject_reply client (bucket env) objectKey)))
         < contentLength (getObject_reply client (bucket env) objectKey) ->
       exists e w',
         downloadCache env client objectKey archivePath options w = (Throw e, w')
         /\ files w' !! archivePath = None).
Proof.
  intros Hclaim.
  destruct (Hclaim runner_env short_store "caches/r/main/h/lock-" "/tmp/cache.tzst"
              None paths_world) as (e & w' & Hrun & Habsent).
  - vm_compute. reflexivity.
  - assert (Hw : w' = snd (downloadCache runner_env short_store
                             "caches/r/main/h/lock-" "/tmp/cache.tzst"
                             (@None unit) paths_world))
      by (by rewrite Hrun).
    subst w'. vm_compute in Habsent. discriminate Habsent.
Qed.

(** With the SDK that resolves, the call reports success over the short
    file. *)
Example downloadCache_silent_truncation :
  exists w',
    downloadCache runner_env short_store_silent "caches/r/main/h/lock-"
      "/tmp/cache.tzst" (@None unit) paths_world = (Ok tt, w')
    /\ files w' !! "/tmp/cache.tzst" = Some [Byte.x68; Byte.x65].
Proof. eexists. split; [reflexivity|]. vm_compute. reflexivity. Qed.

(** C6, amended: downloadCache sends one getObjectToFile request for the
    address and relays its outcome: it fails exactly when that request
    fails, with the same error, and the local files are left as the request
    left them; nothing is compared with the declared length and nothing is
    removed. *)
Theorem downloadCache_relays env client {D} objectKey archivePath
    (options : option D) w :
  downloadCache env client objectKey archivePath options w =
    (match snd (getObjectToFile client (BUCKET_NAME env) objectKey archivePath
                  (files w)) with
     | None => Ok tt
     | Some e => Throw e
     end,
     mkWorld (heap w) (console w)
             (fst (getObjectToFile client (BUCKET_NAME env) objectKey archivePath
                     (files w)))
             (requests w ++ [GetObjectToFile (BUCKET_NAME env) objectKey archivePath])).
Proof.
  unfold downloadCache, client_getObjectToFile, bucket.
  destruct (getObjectToFile client _ _ _ _) as [fs [e|]]; reflexivity.
Qed.

(** * Content-Range *)

Lemma digits_value_of_uint_acc d : forall acc,
  digits_value (Z.pos acc) (NilEmpty.string_of_uint d) =
    Some (Z.pos (Pos.of_uint_acc d acc)).
Proof.
  induction d as [|d IH|d IH|d IH|d IH|d IH|d IH|d IH|d IH|d IH|d IH]; intros acc;
    [reflexivity | ..];
    cbn [NilEmpty.string_of_uint digits_value Pos.of_uint_acc];
    change (digit_value _) with (Some 0) || change (digit_value _) with (Some 1)
    || change (digit_value _) with (Some 2) || change (digit_value _) with (Some 3)
    || change (digit_value _) with (Some 4) || change (digit_value _) with (Some 5)
    || change (digit_value _) with (Some 6) || change (digit_value _) with (Some 7)
    || change (digit_value _) with (Some 8) || change (digit_value _) with (Some 9);
    cbv iota; rewrite <- IH; f_equal; lia.
Qed.

Lemma digits_value_of_uint d :
  digits_value 0 (NilEmpty.string_of_uint d) = Some (Z.of_N (Pos.of_uint d)).
Proof.
  induction d as [|d IH|d IH|d IH|d IH|d IH|d IH|d IH|d IH|d IH|d IH];
    [reflexivity | exact IH | ..];
    cbn [NilEmpty.string_of_uint digits_value Pos.of_uint Z.of_N];
    rewrite <- digits_value_of_uint_acc; reflexivity.
Qed.

(** A positive number prints without a leading zero. *)
Lemma to_uint_leading p :
  match Pos.to_uint p with
  | Decimal.Nil | Decimal.D0 _ => False
  | _ => True
  end.
Proof.
  pose proof (DecimalPos.Unsigned.to_of (Pos.to_uint p)) as Hnorm.
  rewrite DecimalPos.Unsigned.of_to in Hnorm. cbn [N.to_uint] in Hnorm.
  pose proof (DecimalPos.Unsigned.to_uint_nonzero p) as Hnz.
  pose proof (DecimalPos.Unsigned.to_uint_nonnil p) as Hnn.
  destruct (Pos.to_uint p) as [|d| | | | | | | | |]; try exact I; [done|].
  rewrite DecimalFacts.unorm_D0 in Hnorm.
  destruct (Decimal.uint_eq_dec d Decimal.Nil) as [->|Hd]; [by destruct Hnz|].
  pose proof (DecimalFacts.nb_digits_unorm d Hd) as Hlen.
  rewrite <- Hnorm in Hlen. cbn [Decimal.nb_digits] in Hlen. lia.
Qed.

(** A non-negative integer prints as the numeral that reads back as it. *)
Lemma decimal_value_Number_toString n :
  0 <= n -> decimal_value (Number_toString n) = Some n.
Proof.
  intros Hn. destruct n as [|p|p]; [reflexivity | | lia].
  unfold Number_toString. cbn [Z.to_int NilZero.string_of_int].
  pose proof (to_uint_leading p) as Hlead.
  pose proof (digits_value_of_uint (Pos.to_uint p)) as Hval.
  rewrite DecimalPos.Unsigned.of_to in Hval. cbn [Z.of_N] in Hval.
  destruct (Pos.to_uint p) as [|d|d|d|d|d|d|d|d|d|d]; try done; exact Hval.
Qed.

(** Whatever [digits_value] accepts is a string of digits. *)
Lemma digits_value_shape s : forall acc v,
  digits_value acc s = Some v -> exists d, NilEmpty.string_of_uint d = s.
Proof.
  induction s as [|c s IH]; intros acc v H; [by exists Decimal.Nil|].
  cbn [digits_value] in H.
  destruct (digit_value c) as [k|] eqn:Hc; [|discriminate H].
  destruct (IH _ _ H) as [d <-].
  destruct c as [b0 b1 b2 b3 b4 b5 b6 b7].
  destruct b0, b1, b2, b3, b4, b5, b6, b7; try (cbv in Hc; discriminate Hc);
    first [ by exists (Decimal.D0 d) | by exists (Decimal.D1 d)
          | by exists (Decimal.D2 d) | by exists (Decimal.D3 d)
          | by exists (Decimal.D4 d) | by exists (Decimal.D5 d)
          | by exists (Decimal.D6 d) | by exists (Decimal.D7 d)
          | by exists (Decimal.D8 d) | by exists (Decimal.D9 d) ].
Qed.

Lemma string_of_uint_empty d : NilEmpty.string_of_uint d = EmptyString -> d = Decimal.Nil.
Proof. by destruct d. Qed.

(** The numeral of a number is the only string that reads back as it. *)
Lemma decimal_value_unique s n : decimal_value s = Some n -> s = Number_toString n.
Proof.
  intros H.
  assert (Hdigits : digits_value 0 s = Some n).
  { destruct s as [|c s']; [discriminate H|]. unfold decimal_value in H.
    destruct c as [[] [] [] [] [] [] [] []]; try exact H.
    destruct s'; [exact H | discriminate H]. }
  destruct (digits_value_shape _ _ _ Hdigits) as [d <-].
  rewrite digits_value_of_uint in Hdigits. injection Hdigits as <-.
  assert (Hprint : Number_toString (Z.of_N (Pos.of_uint d))
                   = NilZero.string_of_uint (Decimal.unorm d)).
  { rewrite <- DecimalPos.Unsigned.to_of. unfold Number_toString.
    by destruct (Pos.of_uint d). }
  rewrite Hprint.
  destruct d as [|d|d|d|d|d|d|d|d|d|d]; try reflexivity; [discriminate H|].
  destruct (NilEmpty.string_of_uint d) as [|c' s'] eqn:Hd.
  - apply string_of_uint_empty in Hd. by subst d.
  - cbn [NilEmpty.string_of_uint] in H. rewrite Hd in H. discriminate H.
Qed.

(** C9: for integers 0 <= start <= end (byte offsets, exactly representable
    as numbers) the header is "bytes ", the decimal numeral of start, "-",
    the decimal numeral of end, and "/*" for the unknown total; each
    numeral is the one string of digits, without leading zeros, whose value
    is the offset. *)
Theorem getContentRange_format start end_ :
  0 <= start -> start <= end_ -> end_ <= MAX_SAFE_INTEGER ->
  exists s e,
    getContentRange start end_ = "bytes " +:+ s +:+ "-" +:+ e +:+ "/*"
    /\ decimal_value s = Some start
    /\ decimal_value e = Some end_
    /\ (forall s', decimal_value s' = Some start -> s' = s)
    /\ (forall e', decimal_value e' = Some end_ -> e' = e).
Proof.
  intros Hstart Hle _.
  exists (Number_toString start), (Number_toString end_).
  split; [reflexivity|].
  split; [apply decimal_value_Number_toString; lia|].
  split; [apply decimal_value_Number_toString; lia|].
  split; intros ? ?; by apply decimal_value_unique.
Qed.

(** The last chunk of a 250 MB archive cut into 64 MB chunks. *)
Lemma getContentRange_format_witness :
  exists s e,
    getContentRange 201326592 262143999 = "bytes " +:+ s +:+ "-" +:+ e +:+ "/*"
    /\ decimal_value s = Some 201326592
    /\ decimal_value e = Some 262143999.
Proof.
  destruct (getContentRange_format 201326592 262143999) as (s & e & H & Hs & He & _);
    [lia | lia | unfold MAX_SAFE_INTEGER; lia |].
  exists s, e. repeat split; assumption.
Defined.

(** The example in the source comment: a 200 byte chunk at offset 0. *)
Example getContentRange_200_bytes : getContentRange 0 199 = "bytes 0-199/*".
Proof. reflexivity. Qed.

Example getContentRange_last_chunk :
  getContentRange 201326592 262143999 = "bytes 201326592-262143999/*".
Proof. vm_compute. reflexivity. Qed.

(** * Object addresses *)

Lemma append_cons c (s1 s2 : string) : String c s1 +:+ s2 = String c (s1 +:+ s2).
Proof. reflexivity. Qed.

Lemma append_assoc (s1 s2 s3 : string) : (s1 +:+ s2) +:+ s3 = s1 +:+ (s2 +:+ s3).
Proof.
  induction s1 as [|c s1 IH]; [reflexivity|]. rewrite !append_cons. by f_equal.
Qed.

Lemma length_append (s1 s2 : string) :
  String.length (s1 +:+ s2) = (String.length s1 + String.length s2)%nat.
Proof.
  induction s1 as [|c s1 IH]; [reflexivity|].
  rewrite append_cons. cbn [String.length]. by rewrite IH.
Qed.

Lemma strip_prefix_append (pre s : string) : strip_prefix pre (pre +:+ s) = Some s.
Proof.
  induction pre as [|c pre IH]; [reflexivity|].
  rewrite append_cons. cbn [strip_prefix]. by rewrite Ascii.eqb_refl.
Qed.

Lemma objectAddress_scope env key :
  objectAddress env key = scope_prefix env +:+ key.
Proof.
  unfold objectAddress, scope_prefix, repo, ref, workflowHash.
  by rewrite !append_assoc.
Qed.

(** X1: within one environment the key (or reservation id) can be read back
    off the object address by dropping the scope prefix, so two different
    keys never share an address. *)
Theorem objectAddress_key_round_trip env key :
  strip_prefix (scope_prefix env) (objectAddress env key) = Some key
  /\ (forall key', objectAddress env key = objectAddress env key' -> key = key').
Proof.
  split.
  - rewrite objectAddress_scope. apply strip_prefix_append.
  - intros key' Heq.
    assert (Hstrip : strip_prefix (scope_prefix env) (objectAddress env key)
                     = strip_prefix (scope_prefix env) (objectAddress env key'))
      by (by rewrite Heq).
    rewrite !objectAddress_scope, !strip_prefix_append in Hstrip.
    by injection Hstrip.
Qed.

(** X2: the scope components are joined by "/" without escaping, so the
    address does not tell where one component ends: moving a segment from
    the front of the ref to the end of the repository, or from the front of
    the key to the end of the workflow digest, gives a different scope (or
    key) with the same address. *)
Theorem objectAddress_segment_shift b a1 a2 f h1 h2 key pf :
  let env1 := mkEnv b (Some (a1 +:+ "/" +:+ a2)) (Some h1) (Some f) pf in
  let env2 := mkEnv b (Some a1) (Some h1) (Some (a2 +:+ "/" +:+ f)) pf in
  let env3 := mkEnv b (Some a1) (Some (h1 +:+ "/" +:+ h2)) (Some f) pf in
  objectAddress env1 key = objectAddress env2 key
  /\ GITHUB_REPOSITORY env1 <> GITHUB_REPOSITORY env2
  /\ objectAddress (mkEnv b (Some a1) (Some h1) (Some f) pf) (h2 +:+ "/" +:+ key)
     = objectAddress env3 key
  /\ h2 +:+ "/" +:+ key <> key.
Proof.
  cbn zeta. unfold objectAddress, repo, ref, workflowHash.
  cbn [GITHUB_REPOSITORY GITHUB_REF GITHUB_WORKFLOW_SHA interpolate].
  split; [by rewrite !append_assoc|].
  split.
  { intros Heq. injection Heq as Heq.
    apply (f_equal String.length) in Heq.
    rewrite !length_append in Heq. cbn in Heq. lia. }
  split; [by rewrite !append_assoc|].
  intros Heq. apply (f_equal String.length) in Heq.
  rewrite !length_append in Heq. cbn in Heq. lia.
Qed.

(** * More on the cache version *)

Lemma concat_cons_cons sep (x y : string) ys :
  String.concat sep (x :: y :: ys) = x +:+ sep +:+ String.concat sep (y :: ys).
Proof. reflexivity. Qed.

Lemma concat_cons_nonempty sep (x : string) xs :
  xs <> [] -> String.concat sep (x :: xs) = x +:+ sep +:+ String.concat sep xs.
Proof. destruct xs; [done | reflexivity]. Qed.

(** Two neighbours joined by the separator beforehand give the same
    joined string. *)
Lemma concat_merge sep pre (a b : string) post :
  String.concat sep (pre ++ a :: b :: post)
  = String.concat sep (pre ++ (a +:+ sep +:+ b) :: post).
Proof.
  induction pre as [|x pre IH].
  - cbn [app]. rewrite concat_cons_cons. destruct post as [|c post].
    + reflexivity.
    + rewrite !concat_cons_cons. by rewrite !append_assoc.
  - cbn [app]. rewrite !concat_cons_nonempty by (by destruct pre).
    by rewrite IH.
Qed.

(** X3: the components are joined by "|" without escaping, so a path list
    in which two neighbouring paths are replaced by the one path "a|b" gets
    the same version. *)
Theorem getCacheVersion_delimiter_collision env cm x w1 p1 w2 p2 pre a b post :
  heap w1 !! p1 = Some (pre ++ a :: b :: post) ->
  heap w2 !! p2 = Some (pre ++ (a +:+ "|" +:+ b) :: post) ->
  fst (getCacheVersion env p1 cm x w1) = fst (getCacheVersion env p2 cm x w2).
Proof.
  intros H1 H2.
  rewrite (getCacheVersion_run _ _ _ _ _ _ H1), (getCacheVersion_run _ _ _ _ _ _ H2).
  cbn [fst]. unfold spec_version, spec_version_components.
  rewrite <- !(app_assoc pre). cbn [app]. by rewrite concat_merge.
Qed.

Lemma getCacheVersion_delimiter_collision_witness :
  fst (getCacheVersion runner_env 0%nat (Some "zstd") None paths_world)
  = fst (getCacheVersion runner_env 0%nat (Some "zstd") None
           (mkWorld [["/a|/b"]] [] ∅ [])).
Proof.
  apply (getCacheVersion_delimiter_collision runner_env (Some "zstd") None
           paths_world 0%nat (mkWorld [["/a|/b"]] [] ∅ []) 0%nat [] "/a" "/b" []);
    reflexivity.
Defined.

(** X4: the compression method is pushed onto the same list as the paths,
    so caching the paths P with method m gets the same version as caching
    P followed by the path m with no method. *)
Theorem getCacheVersion_method_as_path env x w1 p1 w2 p2 P m :
  m <> EmptyString ->
  heap w1 !! p1 = Some P ->
  heap w2 !! p2 = Some (P ++ [m]) ->
  fst (getCacheVersion env p1 (Some m) x w1) = fst (getCacheVersion env p2 None x w2).
Proof.
  intros Hm H1 H2.
  rewrite (getCacheVersion_run _ _ _ _ _ _ H1), (getCacheVersion_run _ _ _ _ _ _ H2).
  cbn [fst]. unfold spec_version, spec_version_components.
  destruct m as [|c m]; [done|]. by rewrite <- !app_assoc.
Qed.

Lemma getCacheVersion_method_as_path_witness :
  fst (getCacheVersion runner_env 0%nat (Some "zstd") None paths_world)
  = fst (getCacheVersion runner_env 0%nat None None
           (mkWorld [["/a"; "/b"; "zstd"]] [] ∅ [])).
Proof.
  apply (getCacheVersion_method_as_path runner_env None
           paths_world 0%nat (mkWorld [["/a"; "/b"; "zstd"]] [] ∅ []) 0%nat
           ["/a"; "/b"] "zstd");
    [discriminate | reflexivity | reflexivity].
Defined.

(** X5: on a platform other than win32 the cross-OS flag has no effect on
    the version, and on win32 with the flag set the version is the one
    every other platform computes for the same paths and method. *)
Theorem getCacheVersion_cross_os env_win env_other cm x x' w1 p1 w2 p2 w3 p3 P :
  platform env_win = "win32" ->
  platform env_other <> "win32" ->
  heap w1 !! p1 = Some P ->
  heap w2 !! p2 = Some P ->
  heap w3 !! p3 = Some P ->
  fst (getCacheVersion env_win p1 cm (Some true) w1)
    = fst (getCacheVersion env_other p2 cm x w2)
  /\ fst (getCacheVersion env_other p2 cm x w2)
    = fst (getCacheVersion env_other p3 cm x' w3).
Proof.
  intros Hwin Hother H1 H2 H3.
  rewrite (getCacheVersion_run _ _ _ _ _ _ H1), (getCacheVersion_run _ _ _ _ _ _ H2),
    (getCacheVersion_run _ _ _ _ _ _ H3).
  cbn [fst]. unfold spec_version, spec_version_components.
  apply String.eqb_neq in Hother. rewrite Hwin, Hother. by cbn.
Qed.

Lemma getCacheVersion_cross_os_witness :
  fst (getCacheVersion (mkEnv None None None None "win32") 0%nat (Some "zstd")
         (Some true) paths_world)
  = fst (getCacheVersion runner_env 0%nat (Some "zstd") None paths_world).
Proof.
  apply (getCacheVersion_cross_os (mkEnv None None None None "win32") runner_env
           (Some "zstd") None None paths_world 0%nat paths_world 0%nat
           paths_world 0%nat ["/a"; "/b"]);
    [reflexivity | discriminate | reflexivity | reflexivity | reflexivity].
Defined.

Lemma hex_digit_lower n : 0 <= n <= 15 -> is_lower_hex (SHA256.hex_digit n) = true.
Proof.
  intros Hn. rewrite <- (Z2Nat.id n) by lia.
  assert (Hm : (Z.to_nat n < 16)%nat) by lia.
  revert Hm. generalize (Z.to_nat n) as m. intros m Hm.
  do 16 (destruct m as [|m]; [reflexivity|]). lia.
Qed.

Lemma land_15_range x : 0 <= Z.land x 15 <= 15.
Proof.
  assert (Hmod : Z.land x 15 = x mod 16)
    by (change 15 with (Z.ones 4); by rewrite Z.land_ones).
  rewrite Hmod. pose proof (Z.mod_pos_bound x 16). lia.
Qed.

Lemma hex_word_lower x tail :
  forallb is_lower_hex (list_ascii_of_string tail) = true ->
  forallb is_lower_hex (list_ascii_of_string (SHA256.hex_word x tail)) = true.
Proof.
  intros Htail. unfold SHA256.hex_word.
  cbn [list_ascii_of_string forallb].
  rewrite !hex_digit_lower by apply land_15_range. exact Htail.
Qed.

(** X6: whatever the paths, the method and the platform, the version is a
    string of exactly 64 lower-case hexadecimal digits. *)
Theorem getCacheVersion_format env w p P cm x :
  heap w !! p = Some P ->
  exists v,
    fst (getCacheVersion env p cm x w) = Ok v
    /\ String.length v = 64%nat
    /\ forallb is_lower_hex (list_ascii_of_string v) = true.
Proof.
  intros HP. eexists. rewrite (getCacheVersion_run _ _ _ _ _ _ HP).
  split; [reflexivity|]. split; [reflexivity|].
  unfold spec_version, SHA256.sha256_hex, SHA256.hex.
  by repeat apply hex_word_lower.
Qed.

Lemma getCacheVersion_format_witness :
  exists v,
    fst (getCacheVersion runner_env 0%nat (Some "zstd") None paths_world) = Ok v
    /\ String.length v = 64%nat
    /\ forallb is_lower_hex (list_ascii_of_string v) = true.
Proof.
  apply (getCacheVersion_format runner_env paths_world 0%nat ["/a"; "/b"]
           (Some "zstd") None).
  reflexivity.
Defined.

(** * More on resolution *)

Lemma first_match_Some env client keys k :
  first_match env client keys = Some k ->
  In k keys /\ exists_at env client k = true.
Proof.
  induction keys as [|key rest IH]; cbn; [done|].
  destruct (exists_at env client key) eqn:Hkey.
  - intros [= <-]. split; [by left | done].
  - intros Hrest. destruct (IH Hrest) as [Hin Hk]. split; [by right | done].
Qed.

Lemma first_match_None env client keys :
  first_match env client keys = None <->
  (forall k, In k keys -> exists_at env client k = false).
Proof.
  split.
  - induction keys as [|key rest IH]; cbn; [done|].
    destruct (exists_at env client key) eqn:Hkey; [done|].
    intros Hrest k [<-|Hin]; [done | by apply IH].
  - intros Hall. by apply first_match_none.
Qed.

Lemma probed_firstn env client keys :
  exists n, (n <= length keys)%nat /\ probed env client keys = firstn n keys.
Proof.
  induction keys as [|key rest (n & Hn & IH)]; [by exists 0%nat|].
  cbn [probed]. destruct (exists_at env client key).
  - exists 1%nat. cbn. split; [lia | done].
  - exists (S n). cbn. split; [lia | by rewrite IH].
Qed.

Lemma exists_at_head env client k :
  exists_at env client k = true <->
  headObject client (BUCKET_NAME env) (objectAddress env k) = None.
Proof.
  unfold exists_at, bucket. by destruct (headObject client _ _).
Qed.

(** X7: a resolution reports a hit exactly when the existence query
    succeeds for some key of the list.  The cacheKey of a hit is one of the
    given keys, verbatim, its own address answered the query, and objectKey
    is that address; a miss has neither cacheKey nor objectKey.  A key is
    matched as a whole: nothing is looked up by prefix. *)
Theorem getCacheEntry_hit_iff env client keys p P options w :
  heap w !! p = Some P ->
  exists entry w',
    getCacheEntry env client keys p options w = (Ok entry, w')
    /\ (forall k, cacheKey entry = Some k ->
          In k keys
          /\ headObject client (BUCKET_NAME env) (objectAddress env k) = None
          /\ objectKey entry = Some (objectAddress env k))
    /\ (cacheKey entry = None <->
          forall k, In k keys ->
            headObject client (BUCKET_NAME env) (objectAddress env k) <> None)
    /\ (cacheKey entry = None -> objectKey entry = None)
    /\ is_Some (cacheVersion entry).
Proof.
  intros HP.
  pose proof (getCacheEntry_run env client keys p P options w HP) as Hrun.
  cbv zeta in Hrun. eexists _, _. split; [exact Hrun|].
  destruct (first_match env client keys) as [key|] eqn:Hfirst; cbn.
  - apply first_match_Some in Hfirst as [Hin Hkey].
    apply exists_at_head in Hkey.
    split; [intros k [= <-]; done|].
    split; [|split; [done | by eexists]].
    split; [done|]. intros Hall. by destruct (Hall key Hin).
  - split; [done|]. split; [|split; [done | by eexists]].
    split; [|done]. intros _ k Hin Hk.
    apply exists_at_head in Hk.
    pose proof (proj1 (first_match_None env client keys) Hfirst k Hin) as Hno.
    by rewrite Hk in Hno.
Qed.

Lemma getCacheEntry_hit_iff_witness :
  exists entry w',
    getCacheEntry runner_env lock_prefix_store ["lock-abc"; "lock-"] 0%nat None
      paths_world = (Ok entry, w')
    /\ (forall k, cacheKey entry = Some k -> In k ["lock-abc"; "lock-"]).
Proof.
  destruct (getCacheEntry_hit_iff runner_env lock_prefix_store ["lock-abc"; "lock-"]
              0%nat ["/a"; "/b"] None paths_world eq_refl)
    as (entry & w' & Hrun & Hhit & _).
  exists entry, w'. split; [exact Hrun|].
  intros k Hk. by destruct (Hhit k Hk).
Defined.

(** X8: a resolution sends existence queries only, on the configured
    bucket, for an initial segment of the key list in the list's order (so
    at most one per key); it leaves the local files and every array that
    existed before as they were. *)
Theorem getCacheEntry_footprint env client keys p P options w :
  heap w !! p = Some P ->
  exists n,
    (n <= length keys)%nat
    /\ requests (snd (getCacheEntry env client keys p options w))
       = requests w
         ++ map (fun k => HeadObject (BUCKET_NAME env) (objectAddress env k))
                (firstn n keys)
    /\ files (snd (getCacheEntry env client keys p options w)) = files w
    /\ (forall q Q, heap w !! q = Some Q ->
          heap (snd (getCacheEntry env client keys p options w)) !! q = Some Q).
Proof.
  intros HP.
  rewrite (getCacheEntry_run env client keys p P options w HP).
  destruct (probed_firstn env client keys) as (n & Hn & Hprobed).
  exists n. cbn [snd requests files heap]. rewrite Hprobed.
  split; [done|]. split; [done|]. split; [done|].
  intros q Q HQ. by apply lookup_app_l_Some.
Qed.

Lemma getCacheEntry_footprint_witness :
  exists n,
    (n <= 2)%nat
    /\ requests (snd (getCacheEntry runner_env lock_prefix_store
                        ["lock-abc"; "lock-"] 0%nat None paths_world))
       = map (fun k => HeadObject (Some "cache-bucket") (objectAddress runner_env k))
             (firstn n ["lock-abc"; "lock-"]).
Proof.
  destruct (getCacheEntry_footprint runner_env lock_prefix_store
              ["lock-abc"; "lock-"] 0%nat ["/a"; "/b"] None paths_world eq_refl)
    as (n & Hn & Hreq & _).
  exists n. split; [exact Hn | exact Hreq].
Defined.

(** * More on saving, and on how the calls fit together *)

Lemma saveCache_world env client {U} cacheId archivePath (options : option U) w :
  exists lines,
    snd (saveCache env client cacheId archivePath options w) =
      mkWorld (heap w) (console w ++ lines) (files w)
              (requests w
                 ++ [PutObjectFromFile (bucket env) (objectAddress env cacheId)
                       archivePath]).
Proof.
  unfold saveCache.
  unfold bind at 1, core_debug, emit. cbn [heap console files requests].
  unfold bind at 1. rewrite uploadFile_run. cbn [heap console files requests].
  unfold bind at 1, emit. cbn [heap console files requests].
  unfold bind at 1, getArchiveFileSizeInBytes. cbn [heap console files requests].
  destruct (files w !! archivePath) as [bytes|].
  - unfold bind, core_info, emit. cbn [snd heap console files requests].
    eexists. rewrite <- !app_assoc. reflexivity.
  - cbn [snd]. eexists. rewrite <- !app_assoc. reflexivity.
Qed.

(** X10: whatever the store answers and whether or not the call then
    fails, saveCache sends exactly one request, the put of the archive to
    the address of the cache id on the configured bucket, and leaves the
    local files and the arrays as they were. *)
Theorem saveCache_footprint env client {U} cacheId archivePath
    (options : option U) w :
  requests (snd (saveCache env client cacheId archivePath options w))
    = requests w
      ++ [PutObjectFromFile (BUCKET_NAME env) (objectAddress env cacheId) archivePath]
  /\ files (snd (saveCache env client cacheId archivePath options w)) = files w
  /\ heap (snd (saveCache env client cacheId archivePath options w)) = heap w.
Proof.
  destruct (saveCache_world env client cacheId archivePath options w) as [lines ->].
  by cbn.
Qed.

(** With the archive in place the save completes, whatever the put did. *)
Lemma saveCache_run_present env client {U} cacheId archivePath
    (options : option U) w bytes :
  files w !! archivePath = Some bytes ->
  exists lines,
    saveCache env client cacheId archivePath options w =
      (Ok tt,
       mkWorld (heap w) (console w ++ lines) (files w)
               (requests w
                  ++ [PutObjectFromFile (bucket env) (objectAddress env cacheId)
                        archivePath])).
Proof.
  intros Hfile. unfold saveCache.
  unfold bind at 1, core_debug, emit. cbn [heap console files requests].
  unfold bind at 1. rewrite uploadFile_run. cbn [heap console files requests].
  unfold bind at 1, emit. cbn [heap console files requests].
  unfold bind at 1, getArchiveFileSizeInBytes. cbn [heap console files requests].
  rewrite Hfile.
  unfold bind, core_info, emit. cbn [heap console files requests].
  eexists. rewrite <- !app_assoc. reflexivity.
Qed.

(** X11: a save under a key, a resolution of that key and a download of
    the entry found address the same object: when the store reports the
    object as existing, the three calls send a put, an existence query and
    a get for one and the same bucket and key,
    caches/{repo}/{ref}/{workflowHash}/{key}. *)
Theorem save_resolve_download_same_object
    env client key archivePath destination p P options w bytes :
  files w !! archivePath = Some bytes ->
  heap w !! p = Some P ->
  headObject client (BUCKET_NAME env) (objectAddress env key) = None ->
  requests (snd (save_resolve_download env client key archivePath destination
                   p options w))
  = requests w
    ++ [PutObjectFromFile (BUCKET_NAME env) (objectAddress env key) archivePath;
        HeadObject (BUCKET_NAME env) (objectAddress env key);
        GetObjectToFile (BUCKET_NAME env) (objectAddress env key) destination].
Proof.
  intros Hfile HP Hhead. unfold save_resolve_download.
  destruct (saveCache_run_present env client key archivePath (@None unit) w bytes Hfile)
    as [lines Hsave].
  unfold bind at 1. rewrite Hsave.
  unfold bind at 1.
  rewrite (getCacheEntry_run env client [key] p P options); [|exact HP].
  cbn [first_match probed]. unfold exists_at, bucket. rewrite Hhead.
  cbn [objectKey heap console files requests map probe].
  unfold downloadCache, client_getObjectToFile, bucket.
  cbn [heap console files requests].
  destruct (getObjectToFile client _ _ _ _) as [fs [e|]];
    cbn [snd requests]; by rewrite <- !app_assoc.
Qed.

Lemma save_resolve_download_same_object_witness :
  requests (snd (save_resolve_download runner_env lock_prefix_store "lock-"
                   "/tmp/cache.tzst" "/tmp/restored.tzst" 0%nat None
                   (mkWorld [["/a"; "/b"]] []
                      {[ "/tmp/cache.tzst" := [Byte.x28; Byte.xb5; Byte.x2f] ]} [])))
  = [PutObjectFromFile (Some "cache-bucket") (objectAddress runner_env "lock-")
       "/tmp/cache.tzst";
     HeadObject (Some "cache-bucket") (objectAddress runner_env "lock-");
     GetObjectToFile (Some "cache-bucket") (objectAddress runner_env "lock-")
       "/tmp/restored.tzst"].
Proof.
  apply (save_resolve_download_same_object runner_env lock_prefix_store "lock-"
           "/tmp/cache.tzst" "/tmp/restored.tzst" 0%nat ["/a"; "/b"] None
           (mkWorld [["/a"; "/b"]] []
              {[ "/tmp/cache.tzst" := [Byte.x28; Byte.xb5; Byte.x2f] ]} [])
           [Byte.x28; Byte.xb5; Byte.x2f]);
    reflexivity.
Defined.

(** * More on Content-Range *)

Lemma decimal_value_digits s n : decimal_value s = Some n -> digits_value 0 s = Some n.
Proof.
  intros H. destruct s as [|c s']; [discriminate H|]. unfold decimal_value in H.
  destruct c as [[] [] [] [] [] [] [] []]; try exact H.
  destruct s'; [exact H | discriminate H].
Qed.

(** A run of digits followed by something that is not a digit is split
    right there. *)
Lemma span_digits_append digits : forall acc v rest,
  digits_value acc digits = Some v ->
  match rest with
  | EmptyString => True
  | String c _ => digit_value c = None
  end ->
  span_digits (digits +:+ rest) = (digits, rest).
Proof.
  induction digits as [|c digits IH]; intros acc v rest Hval Hrest.
  - destruct rest as [|c rest]; [reflexivity|].
    change (EmptyString +:+ String c rest) with (String c rest).
    cbn [span_digits]. by rewrite Hrest.
  - rewrite append_cons. cbn [span_digits digits_value] in *.
    destruct (digit_value c) as [d|]; [|discriminate Hval].
    by rewrite (IH _ _ _ Hval Hrest).
Qed.

(** X12: a Content-Range header reads back as the offsets it was made
    from, so headers of different ranges differ. *)
Theorem getContentRange_round_trip start end_ :
  0 <= start <= MAX_SAFE_INTEGER ->
  0 <= end_ <= MAX_SAFE_INTEGER ->
  parseContentRange (getContentRange start end_) = Some (start, end_)
  /\ (forall start' end',
        0 <= start' <= MAX_SAFE_INTEGER ->
        0 <= end' <= MAX_SAFE_INTEGER ->
        getContentRange start end_ = getContentRange start' end' ->
        start = start' /\ end_ = end').
Proof.
  assert (Hparse : forall a b, 0 <= a -> 0 <= b ->
            parseContentRange (getContentRange a b) = Some (a, b)).
  { intros a b Ha Hb. unfold parseContentRange, getContentRange.
    rewrite strip_prefix_append.
    pose proof (decimal_value_Number_toString a Ha) as Hda.
    pose proof (decimal_value_Number_toString b Hb) as Hdb.
    change ("-" +:+ Number_toString b +:+ "/*")
      with (String "-" (Number_toString b +:+ "/*")).
    rewrite (span_digits_append _ 0 a _ (decimal_value_digits _ _ Hda));
      [|reflexivity].
    rewrite (span_digits_append _ 0 b _ (decimal_value_digits _ _ Hdb));
      [|reflexivity].
    by rewrite Hda, Hdb. }
  intros Hstart Hend. split; [apply Hparse; lia|].
  intros start' end' Hstart' Hend' Heq.
  assert (Hboth : Some (start, end_) = Some (start', end')).
  { rewrite <- (Hparse start end_), <- (Hparse start' end') by lia. by rewrite Heq. }
  by injection Hboth.
Qed.

Lemma getContentRange_round_trip_witness :
  parseContentRange (getContentRange 67108864 134217727) = Some (67108864, 134217727).
Proof.
  apply (getContentRange_round_trip 67108864 134217727);
    unfold MAX_SAFE_INTEGER; lia.
Defined.

(** * The service URL of the earlier generation *)

(** X13: getCacheApiUrl fails, before printing anything, exactly when
    ACTIONS_CACHE_URL is unset or empty; otherwise it prints one debug line
    and returns the base URL, taken verbatim (no slash is added), followed
    by "_apis/artifactcache/" and the resource, which can be read back off
    the result. *)
Theorem getCacheApiUrl_outcome url resource w :
  ((exists e, fst (getCacheApiUrl url resource w) = Throw e)
     <-> (url = None \/ url = Some EmptyString))
  /\ ((url = None \/ url = Some EmptyString) ->
        snd (getCacheApiUrl url resource w) = w)
  /\ (forall base, url = Some base -> base <> EmptyString ->
        getCacheApiUrl url resource w =
          (Ok (base +:+ "_apis/artifactcache/" +:+ resource),
           mkWorld (heap w)
                   (console w ++ [(CoreDebug, "Resource Url: " +:+ base
                                     +:+ "_apis/artifactcache/" +:+ resource)])
                   (files w) (requests w))
        /\ strip_prefix (base +:+ "_apis/artifactcache/")
             (base +:+ "_apis/artifactcache/" +:+ resource) = Some resource).
Proof.
  split; [|split].
  - destruct url as [[|c base]|]; cbn; split; intros H;
      try (by eexists); try (by left); try (by right).
    + by destruct H.
    + by destruct H.
  - by intros [-> | ->].
  - intros base -> Hbase. destruct base as [|c base]; [done|]. split; [by cbn|].
    rewrite <- append_assoc. apply strip_prefix_append.
Qed.

Lemma getCacheApiUrl_outcome_witness :
  getCacheApiUrl (Some "https://cache.example/") "caches" paths_world =
    (Ok "https://cache.example/_apis/artifactcache/caches",
     mkWorld [["/a"; "/b"]]
             [(CoreDebug, "Resource Url: https://cache.example/_apis/artifactcache/caches")]
             ∅ []).
Proof.
  apply (proj2 (proj2 (getCacheApiUrl_outcome (Some "https://cache.example/")
                         "caches" paths_world))
           "https://cache.example/" eq_refl).
  discriminate.
Defined.
